(** * WhatsApp chat analysis: the parser of [app.py] and the aggregators of
    [helper.py], embedded in Rocq.

    Python strings are modelled as lists of characters; the characters are
    those of code points 0..255 ([ascii]), with the Unicode classification
    Python gives them ([\d], [\s], [\w], [str.lower]).  Regular expressions are
    kept as syntax trees and run by a backtracking matcher that lists the
    successes in the priority order of Python's [re] module. *)

From Stdlib Require Import Ascii String.
From Stdlib Require Import List ZArith Lia Bool Arith.
From Stdlib Require Import Permutation Sorted.
Import ListNotations.

Set Warnings "-abstract-large-number".

Definition str := list ascii.
Definition lit (s : string) : str := list_ascii_of_string s.

(* ================================================================== *)
(** ** Regular expressions *)

Section Regex.
Context {C : Type}.

Inductive regex : Type :=
| Eps
| Cls (p : C -> bool)              (* one character of a class, or a literal *)
| Cat (r1 r2 : regex)
| Alt (r1 r2 : regex)              (* r1|r2 *)
| Opt (r : regex)                  (* r?   *)
| Rep (p : C -> bool) (lo hi : nat)   (* [p]{lo,hi} *)
| Plus (p : C -> bool)             (* [p]+  *)
| PlusLazy (p : C -> bool)         (* [p]+? *)
| Grp (r : regex).                 (* ( r ), a capturing group *)

(** The remainders left by [p{lo,hi}], longest match first. *)
Fixpoint rep_greedy (p : C -> bool) (lo hi : nat) (s : list C) : list (list C) :=
  match hi, s with
  | S hi', c :: s' =>
      (if p c then rep_greedy p (pred lo) hi' s' else [])
        ++ (if lo =? 0 then [s] else [])
  | _, _ => if lo =? 0 then [s] else []
  end.

Fixpoint star_greedy (p : C -> bool) (s : list C) : list (list C) :=
  match s with
  | c :: s' => (if p c then star_greedy p s' else []) ++ [s]
  | [] => [s]
  end.

Fixpoint star_lazy (p : C -> bool) (s : list C) : list (list C) :=
  match s with
  | c :: s' => s :: (if p c then star_lazy p s' else [])
  | [] => [s]
  end.

Definition plus_of (star : (C -> bool) -> list C -> list (list C))
           (p : C -> bool) (s : list C) : list (list C) :=
  match s with
  | c :: s' => if p c then star p s' else []
  | [] => []
  end.

Definition no_groups (l : list (list C)) : list (list (list C) * list C) :=
  map (fun s' => ([], s')) l.

(** [rm r s]: every way [r] matches a prefix of [s], as (groups, remainder),
    in the order the backtracking matcher tries them. *)
Fixpoint rm (r : regex) (s : list C) : list (list (list C) * list C) :=
  match r with
  | Eps => [([], s)]
  | Cls p => match s with
             | c :: s' => if p c then [([], s')] else []
             | [] => []
             end
  | Cat r1 r2 =>
      flat_map (fun m1 => map (fun m2 => (fst m1 ++ fst m2, snd m2)) (rm r2 (snd m1)))
               (rm r1 s)
  | Alt r1 r2 => rm r1 s ++ rm r2 s
  | Opt r1 => rm r1 s ++ [([], s)]
  | Rep p lo hi => no_groups (rep_greedy p lo hi s)
  | Plus p => no_groups (plus_of star_greedy p s)
  | PlusLazy p => no_groups (plus_of star_lazy p s)
  | Grp r1 =>
      map (fun m => (firstn (length s - length (snd m)) s :: fst m, snd m)) (rm r1 s)
  end.

(** [re.match]: the first success at the start of [s]. *)
Definition match_at (r : regex) (s : list C) : option (list (list C) * list C) :=
  hd_error (rm r s).

(** One match found while scanning: the text skipped before it, the text
    it matched and its groups. *)
Record found : Type := Found { before : list C; matched : list C; groups : list (list C) }.

Definition skip (c : C) (res : list found * list C) : list found * list C :=
  match res with
  | ([], tl) => ([], c :: tl)
  | (f :: fs, tl) => (Found (c :: before f) (matched f) (groups f) :: fs, tl)
  end.

Definition emit (m : list C) (g : list (list C)) (res : list found * list C)
  : list found * list C :=
  (Found [] m g :: fst res, snd res).

(** A non-empty match at the start of [s]. *)
Definition hit (r : regex) (s : list C) : option (list (list C) * list C) :=
  match match_at r s with
  | Some (g, rest) => if length rest <? length s then Some (g, rest) else None
  | None => None
  end.

(** Left-to-right scan for the non-overlapping matches of [r]; the second
    component is the text after the last match.  The patterns of this
    program match no empty string; a position whose match would be empty is
    stepped over. *)
Fixpoint finditer_fuel (fuel : nat) (r : regex) (s : list C) : list found * list C :=
  match fuel with
  | 0 => ([], s)
  | S fuel' =>
      match s with
      | [] => ([], [])
      | c :: s' =>
          match hit r s with
          | Some (g, rest) =>
              emit (firstn (length s - length rest) s) g (finditer_fuel fuel' r rest)
          | None => skip c (finditer_fuel fuel' r s')
          end
      end
  end.

Definition finditer (r : regex) (s : list C) : list found * list C :=
  finditer_fuel (length s) r s.

(** [re.split]: the pieces between the matches, each followed by the groups
    of the match that ends it. *)
Definition re_split (r : regex) (s : list C) : list (list C) :=
  let '(fs, tl) := finditer r s in
  flat_map (fun f => before f :: groups f) fs ++ [tl].

(** [re.findall]: the matched texts, or the group when the pattern has one. *)
Definition re_findall (r : regex) (s : list C) : list (list C) :=
  map (fun f => match groups f with g :: _ => g | [] => matched f end) (fst (finditer r s)).

(** [re.sub] with a constant replacement. *)
Definition re_sub (r : regex) (repl : list C) (s : list C) : list C :=
  let '(fs, tl) := finditer r s in
  flat_map (fun f => before f ++ repl) fs ++ tl.

(** [re.search(...) is not None]. *)
Definition re_search (r : regex) (s : list C) : bool :=
  match fst (finditer r s) with [] => false | _ :: _ => true end.

End Regex.

Arguments regex : clear implicits.
Arguments found : clear implicits.
Arguments Eps {C}.
Arguments Cls {C} p.
Arguments Cat {C} r1 r2.
Arguments Alt {C} r1 r2.
Arguments Opt {C} r.
Arguments Rep {C} p lo hi.
Arguments Plus {C} p.
Arguments PlusLazy {C} p.
Arguments Grp {C} r.
Arguments Found {C} before matched groups.
Arguments before {C} f.
Arguments matched {C} f.
Arguments groups {C} f.

(** Concatenation of a list of regexes, and a literal string. *)
Definition seq {C} (rs : list (regex C)) : regex C := fold_right Cat Eps rs.

(* ================================================================== *)
(** ** Characters *)

Definition code (c : ascii) : nat := nat_of_ascii c.
Definition between (lo hi : nat) (c : ascii) : bool := (lo <=? code c) && (code c <=? hi).
Definition chr (a : ascii) (c : ascii) : bool := Ascii.eqb a c.
Definition one_of (l : string) (c : ascii) : bool :=
  existsb (Ascii.eqb c) (list_ascii_of_string l).

(** [\d]: the decimal digits. *)
Definition is_digit (c : ascii) : bool := between 48 57 c.

(** [\s] and [str.isspace]: tab, LF, VT, FF, CR, FS..US, space, NEL, NBSP. *)
Definition is_space (c : ascii) : bool :=
  between 9 13 c || between 28 32 c || (code c =? 133) || (code c =? 160).

(** [\w]: letters, digits (alphanumeric in the Unicode sense) and underscore. *)
Definition is_word (c : ascii) : bool :=
  between 48 57 c || between 65 90 c || between 97 122 c || (code c =? 95)
  || (code c =? 170) || between 178 179 c || (code c =? 181) || between 185 186 c
  || between 188 190 c || between 192 214 c || between 216 246 c || between 248 255 c.

Definition any_char (c : ascii) : bool := is_word c || negb (is_word c).   (* [\w\W] *)
Definition not_space (c : ascii) : bool := negb (is_space c).              (* \S *)

(** [str.lower] on one character. *)
Definition lower_char (c : ascii) : ascii :=
  if between 65 90 c || (between 192 222 c && negb (code c =? 215))
  then ascii_of_nat (code c + 32) else c.
Definition lower (s : str) : str := map lower_char s.

(** A literal character under [re.IGNORECASE]. *)
Definition chr_i (a : ascii) (c : ascii) : bool := Ascii.eqb (lower_char a) (lower_char c).

(** A literal string as a pattern, case-sensitive or not. *)
Definition lit_re (s : string) : regex ascii := seq (map (fun a => Cls (chr a)) (lit s)).
Definition lit_re_i (s : string) : regex ascii := seq (map (fun a => Cls (chr_i a)) (lit s)).

(** [str.split()] with no argument: the maximal runs of non-space characters. *)
Fixpoint split_ws_aux (cur : str) (s : str) : list str :=
  match s with
  | [] => match cur with [] => [] | _ => [rev cur] end
  | c :: s' =>
      if is_space c
      then match cur with [] => split_ws_aux [] s' | _ => rev cur :: split_ws_aux [] s' end
      else split_ws_aux (c :: cur) s'
  end.
Definition split_ws (s : str) : list str := split_ws_aux [] s.

(** [sep.join(parts)]. *)
Fixpoint join (sep : str) (parts : list str) : str :=
  match parts with
  | [] => []
  | [p] => p
  | p :: ps => p ++ sep ++ join sep ps
  end.

(** [str(n)] for a non-negative integer. *)
Fixpoint digits_fuel (fuel : nat) (n : nat) (acc : str) : str :=
  match fuel with
  | 0 => acc
  | S fuel' =>
      let acc' := ascii_of_nat (48 + n mod 10) :: acc in
      if n <? 10 then acc' else digits_fuel fuel' (n / 10) acc'
  end.
Definition str_of_nat (n : nat) : str := digits_fuel (S n) n [].

(** [int(s)] for a string of decimal digits. *)
Definition int_of (s : str) : nat :=
  fold_left (fun acc c => 10 * acc + (code c - 48)) s 0.

Fixpoint str_eqb (a b : str) : bool :=
  match a, b with
  | [], [] => true
  | x :: a', y :: b' => Ascii.eqb x y && str_eqb a' b'
  | _, _ => false
  end.

(* ================================================================== *)
(** ** The patterns of [app.py] and [helper.py] *)

(** [\d{1,2}/\d{1,2}/\d{2,4},\s\d{1,2}:\d{2}(?:\s?[APap][Mm])?\s-\s] *)
Definition pattern : regex ascii :=
  seq [ Rep is_digit 1 2; Cls (chr "/"); Rep is_digit 1 2; Cls (chr "/"); Rep is_digit 2 4;
        Cls (chr ","); Cls is_space; Rep is_digit 1 2; Cls (chr ":"); Rep is_digit 2 2;
        Opt (seq [ Opt (Cls is_space); Cls (one_of "APap"); Cls (one_of "Mm") ]);
        Cls is_space; Cls (chr "-"); Cls is_space ].

(** [([\w\W]+?):\s] *)
Definition user_pattern : regex ascii :=
  seq [ Grp (PlusLazy any_char); Cls (chr ":"); Cls is_space ].

(** [(https?://\S+|www\.\S+)] *)
Definition url_pattern : regex ascii :=
  Grp (Alt (seq [ lit_re "http"; Opt (Cls (chr "s")); lit_re "://"; Plus not_space ])
           (seq [ lit_re "www."; Plus not_space ])).

(** [<Media omitted>] with [case=False] *)
Definition media_pattern : regex ascii := lit_re_i "<Media omitted>".

(** [[^\w\s]] *)
Definition punct_pattern : regex ascii := Cls (fun c => negb (is_word c || is_space c)).

(* ================================================================== *)
(** ** Timestamps: [pd.to_datetime(date_str, format=...)] *)

Record Timestamp : Type :=
  { ts_year : nat; ts_month : nat; ts_day : nat; ts_hour : nat; ts_minute : nat }.

(** The directives of a [strptime] format. *)
Inductive directive : Type :=
| Pd | Pm | Py | PY | PH | PI | PM | Pp    (* %d %m %y %Y %H %I %M %p *)
| Pws                                      (* a run of spaces in the format *)
| Pch (c : ascii).                         (* any other character *)

Definition dig (lo hi : string) : regex ascii :=
  Cls (fun c => between (code (hd "0"%char (lit lo))) (code (hd "0"%char (lit hi))) c).
Definition d_ : regex ascii := Cls is_digit.
Definition alts (rs : list (regex ascii)) : regex ascii :=
  match rs with
  | [] => Eps
  | r :: rs' => fold_left Alt rs' r
  end.

(** The regular expression pandas compiles a directive to (class [TimeRE]);
    the whole format is matched with [re.IGNORECASE]. *)
Definition directive_re (d : directive) : regex ascii :=
  match d with
  | Pd => Grp (alts [ Cat (Cls (chr "3")) (dig "0" "1"); Cat (dig "1" "2") d_;
                      Cat (Cls (chr "0")) (dig "1" "9"); dig "1" "9";
                      Cat (Cls (chr " ")) (dig "1" "9") ])
  | Pm => Grp (alts [ Cat (Cls (chr "1")) (dig "0" "2"); Cat (Cls (chr "0")) (dig "1" "9");
                      dig "1" "9" ])
  | Py => Grp (Cat d_ d_)
  | PY => Grp (seq [ d_; d_; d_; d_ ])
  | PH => Grp (alts [ Cat (Cls (chr "2")) (dig "0" "3"); Cat (dig "0" "1") d_; d_ ])
  | PI => Grp (alts [ Cat (Cls (chr "1")) (dig "0" "2"); Cat (Cls (chr "0")) (dig "1" "9");
                      dig "1" "9" ])
  | PM => Grp (alts [ Cat (dig "0" "5") d_; d_ ])
  | Pp => Grp (alts [ lit_re_i "am"; lit_re_i "pm" ])
  | Pws => Plus is_space
  | Pch c => Cls (chr_i c)
  end.

Definition format_re (fmt : list directive) : regex ascii := seq (map directive_re fmt).

Definition is_field (d : directive) : bool :=
  match d with Pws | Pch _ => false | _ => true end.

(** The values read so far; the defaults are those of pandas. *)
Record fields : Type :=
  { f_year : nat; f_month : nat; f_day : nat; f_hour : nat; f_minute : nat }.

Definition set_field (ampm : str) (d : directive) (v : str) (f : fields) : fields :=
  match d with
  | Py => let y := int_of v in
          {| f_year := if y <=? 68 then y + 2000 else y + 1900; f_month := f_month f;
             f_day := f_day f; f_hour := f_hour f; f_minute := f_minute f |}
  | PY => {| f_year := int_of v; f_month := f_month f; f_day := f_day f;
             f_hour := f_hour f; f_minute := f_minute f |}
  | Pm => {| f_year := f_year f; f_month := int_of v; f_day := f_day f;
             f_hour := f_hour f; f_minute := f_minute f |}
  | Pd => {| f_year := f_year f; f_month := f_month f; f_day := int_of v;
             f_hour := f_hour f; f_minute := f_minute f |}
  | PH => {| f_year := f_year f; f_month := f_month f; f_day := f_day f;
             f_hour := int_of v; f_minute := f_minute f |}
  | PI => let h := int_of v in
          let h' := if str_eqb ampm (lit "pm")
                    then (if h =? 12 then h else h + 12)
                    else (if h =? 12 then 0 else h) in
          {| f_year := f_year f; f_month := f_month f; f_day := f_day f;
             f_hour := h'; f_minute := f_minute f |}
  | PM => {| f_year := f_year f; f_month := f_month f; f_day := f_day f;
             f_hour := f_hour f; f_minute := int_of v |}
  | _ => f
  end.

(** The text of the [%p] group, lower-cased, or the empty string. *)
Fixpoint ampm_of (ds : list directive) (gs : list str) : str :=
  match ds, gs with
  | Pp :: _, g :: _ => lower g
  | _ :: ds', _ :: gs' => ampm_of ds' gs'
  | _, _ => []
  end.

Definition is_leap (y : nat) : bool :=
  ((y mod 4 =? 0) && negb (y mod 100 =? 0)) || (y mod 400 =? 0).

Definition days_in_month (y m : nat) : nat :=
  match m with
  | 2 => if is_leap y then 29 else 28
  | 4 | 6 | 9 | 11 => 30
  | _ => 31
  end.

(** [datetime.date(y, m, d)] accepts the date. *)
Definition valid_date (y m d : nat) : bool :=
  (1 <=? y) && (y <=? 9999) && (1 <=? m) && (m <=? 12) && (1 <=? d) && (d <=? days_in_month y m).

Definition stamp_key (t : Timestamp) : list nat :=
  [ts_year t; ts_month t; ts_day t; ts_hour t; ts_minute t].

Fixpoint lex_leb (a b : list nat) : bool :=
  match a, b with
  | x :: a', y :: b' => (x <? y) || ((x =? y) && lex_leb a' b')
  | _, _ => true
  end.

(** The range of a nanosecond timestamp ([datetime64[ns]]), at minute
    precision; outside it pandas raises [OutOfBoundsDatetime]. *)
Definition in_bounds (t : Timestamp) : bool :=
  lex_leb [1677; 9; 21; 0; 13] (stamp_key t) && lex_leb (stamp_key t) [2262; 4; 11; 23; 47].

(** [pd.to_datetime(s, format=fmt)]: [None] stands for the [ValueError].  The
    pattern is matched at the start of [s]; the first success must use up the
    whole string. *)
Definition to_datetime (fmt : list directive) (s : str) : option Timestamp :=
  match match_at (format_re fmt) s with
  | Some (gs, []) =>
      let ds := filter is_field fmt in
      let f := fold_left (fun f dv => set_field (ampm_of ds gs) (fst dv) (snd dv) f)
                         (combine ds gs)
                         {| f_year := 1900; f_month := 1; f_day := 1; f_hour := 0; f_minute := 0 |} in
      let t := {| ts_year := f_year f; ts_month := f_month f; ts_day := f_day f;
                  ts_hour := f_hour f; ts_minute := f_minute f |} in
      if valid_date (f_year f) (f_month f) (f_day f) && in_bounds t then Some t else None
  | _ => None
  end.

(** The four formats of [preprocess], in the order the nested [try] blocks
    use them. *)
Definition fmt_y_12 : list directive :=       (* '%d/%m/%y, %I:%M %p - ' *)
  [Pd; Pch "/"; Pm; Pch "/"; Py; Pch ","; Pws; PI; Pch ":"; PM; Pws; Pp; Pws; Pch "-"; Pws].
Definition fmt_y_24 : list directive :=       (* '%d/%m/%y, %H:%M - ' *)
  [Pd; Pch "/"; Pm; Pch "/"; Py; Pch ","; Pws; PH; Pch ":"; PM; Pws; Pch "-"; Pws].
Definition fmt_Y_12 : list directive :=       (* '%d/%m/%Y, %I:%M %p - ' *)
  [Pd; Pch "/"; Pm; Pch "/"; PY; Pch ","; Pws; PI; Pch ":"; PM; Pws; Pp; Pws; Pch "-"; Pws].
Definition fmt_Y_24 : list directive :=       (* '%d/%m/%Y, %H:%M - ' *)
  [Pd; Pch "/"; Pm; Pch "/"; PY; Pch ","; Pws; PH; Pch ":"; PM; Pws; Pch "-"; Pws].

Definition formats : list (list directive) := [fmt_y_12; fmt_y_24; fmt_Y_12; fmt_Y_24].

(** The [try]/[except ValueError] chain: the first format that parses. *)
Fixpoint first_parse (fmts : list (list directive)) (s : str) : option Timestamp :=
  match fmts with
  | [] => None
  | fmt :: rest =>
      match to_datetime fmt s with
      | Some t => Some t
      | None => first_parse rest s
      end
  end.

Definition parse_date (date_str : str) : option Timestamp := first_parse formats date_str.

(** [date.toordinal]: days since 0001-01-01, which has ordinal 1. *)
Definition days_before_year (y : nat) : nat :=
  let p := y - 1 in 365 * p + p / 4 - p / 100 + p / 400.
Definition days_before_month (y m : nat) : nat :=
  fold_right (fun k acc => days_in_month y k + acc) 0 (List.seq 1 (m - 1)).
Definition toordinal (y m d : nat) : nat := days_before_year y + days_before_month y m + d.

Definition weekday (t : Timestamp) : nat :=
  (toordinal (ts_year t) (ts_month t) (ts_day t) + 6) mod 7.

Definition day_order : list str :=
  map lit ["Monday"; "Tuesday"; "Wednesday"; "Thursday"; "Friday"; "Saturday"; "Sunday"]%string.
Definition month_order : list str :=
  map lit ["January"; "February"; "March"; "April"; "May"; "June"; "July"; "August";
           "September"; "October"; "November"; "December"]%string.

(** [dt.day_name()] and [dt.month_name()]. *)
Definition dt_day_name (t : Timestamp) : str := nth (weekday t) day_order [].
Definition dt_month_name (t : Timestamp) : str := nth (ts_month t - 1) month_order [].

(* ================================================================== *)
(** ** Exceptions and data frames *)

Inductive exn : Type := AttributeError | ValueError | OSError.

Inductive result (A : Type) : Type :=
| Ok (a : A)
| Raise (e : exn).
Arguments Ok {A} a.
Arguments Raise {A} e.

Definition bind {A B} (x : result A) (f : A -> result B) : result B :=
  match x with
  | Ok a => f a
  | Raise e => Raise e
  end.
Notation "x <- c ;; k" := (bind c (fun x => k)) (at level 61, c at next level, right associativity).

(** The dtypes a column of this program can have. *)
Inductive dtype : Type := Object | Float64 | Datetime64.

(** The dtype pandas infers for a column assigned from a Python list whose
    elements have dtype [d]: an empty list carries no element to infer from and
    becomes a [float64] column. *)
Definition dtype_of_list {A} (l : list A) (d : dtype) : dtype :=
  match l with
  | [] => Float64
  | _ :: _ => d
  end.

(** One row of the frame [preprocess] returns. *)
Record Row : Type :=
  { date : Timestamp; user : str; message : str; only_date : nat * nat * nat; year : nat;
    month_num : nat; month : str; day : nat; day_name : str; hour : nat; minute : nat;
    period : str }.

(** A frame: its rows, and the dtype of its text columns ([user], [message],
    [period]), which the [.str] accessor depends on. *)
Record DataFrame : Type := { rows : list Row; text_dtype : dtype }.

(** [series.dt]: only for datetime columns. *)
Definition dt_accessor {A} (d : dtype) (col : list A) : result (list A) :=
  match d with
  | Datetime64 => Ok col
  | _ => Raise AttributeError
  end.

(** [series.str]: only for columns of strings (an empty [float64] column is
    refused). *)
Definition str_accessor (df : DataFrame) : result (list str) :=
  match text_dtype df with
  | Object => Ok (map message (rows df))
  | _ => Raise AttributeError
  end.

(* ================================================================== *)
(** ** [app.py]: [preprocess] *)

Definition group_notification : str := lit "group_notification".

(** Lines 59-66: the author and the text of one message chunk. *)
Definition split_user (msg : str) : str * str :=
  let entry := re_split user_pattern msg in
  match tl entry with
  | _ :: _ => (nth 1 entry [], join (lit " ") (skipn 2 entry))
  | [] => (group_notification, nth 0 entry [])
  end.

(** Lines 81-88: the label of the hour. *)
Definition period_of (h : nat) : str :=
  if h =? 23 then str_of_nat h ++ lit "-" ++ lit "00"
  else if h =? 0 then lit "00" ++ lit "-" ++ str_of_nat (h + 1)
  else str_of_nat h ++ lit "-" ++ str_of_nat (h + 1).

Definition make_row (t : Timestamp) (um : str * str) : Row :=
  {| date := t; user := fst um; message := snd um;
     only_date := (ts_year t, ts_month t, ts_day t); year := ts_year t;
     month_num := ts_month t; month := dt_month_name t; day := ts_day t;
     day_name := dt_day_name t; hour := ts_hour t; minute := ts_minute t;
     period := period_of (ts_hour t) |}.

(** The text given to [st.error] for a date that no format parses. *)
Definition date_error (date_str : str) : str :=
  lit "Could not parse date: " ++ date_str
  ++ lit ". Please ensure your chat export is in a standard format.".

(** [df.dropna(subset=['date'])] on the (chunk, parsed date) pairs. *)
Definition dropna {A} (l : list (A * option Timestamp)) : list (A * Timestamp) :=
  flat_map (fun x => match snd x with Some t => [(fst x, t)] | None => [] end) l.

(** [preprocess(data)]: the diagnostics shown with [st.error], and the frame
    or the exception raised. *)
Definition preprocess (data : str) : list str * result DataFrame :=
  let messages := tl (re_split pattern data) in
  let dates := re_findall pattern data in
  let df := combine messages dates in
  let parsed_dates := map (fun md => parse_date (snd md)) df in
  let errors :=
    flat_map (fun md => match parse_date (snd md) with
                        | None => [date_error (snd md)]
                        | Some _ => []
                        end) df in
  let date_dtype := dtype_of_list parsed_dates Datetime64 in
  let kept := dropna (combine (map fst df) parsed_dates) in
  let users_messages := map (fun mt => split_user (fst mt)) kept in
  (errors,
   stamps <- dt_accessor date_dtype (map snd kept) ;;
   Ok {| rows := map (fun p => make_row (fst p) (snd p)) (combine stamps users_messages);
         text_dtype := dtype_of_list users_messages Object |}).

(* ================================================================== *)
(** ** Counting and sorting *)

Section Counting.
Context {K : Type} (eqb : K -> K -> bool).

(** [Counter(xs)]: the distinct elements in the order they first appear,
    each with its number of occurrences. *)
Fixpoint bump (k : K) (c : list (K * nat)) : list (K * nat) :=
  match c with
  | [] => [(k, 1)]
  | (k', n) :: c' => if eqb k' k then (k', S n) :: c' else (k', n) :: bump k c'
  end.
Definition Counter (xs : list K) : list (K * nat) :=
  fold_left (fun c k => bump k c) xs [].
End Counting.

Section Sorting.
Context {A : Type} (leb : A -> A -> bool).

Fixpoint insert_sorted (x : A) (l : list A) : list A :=
  match l with
  | [] => [x]
  | y :: l' => if leb x y then x :: l else y :: insert_sorted x l'
  end.
(** A stable sort. *)
Definition sort_by (l : list A) : list A := fold_right insert_sorted [] l.
End Sorting.

(** Descending by count, ties in the order of the input: [most_common],
    [value_counts]. *)
Definition by_count_desc {K} (c : list (K * nat)) : list (K * nat) :=
  sort_by (fun a b => snd b <=? snd a) c.

Fixpoint str_leb (a b : str) : bool :=
  match a, b with
  | [], _ => true
  | _ :: _, [] => false
  | x :: a', y :: b' => (code x <? code y) || ((code x =? code y) && str_leb a' b')
  end.

Definition value_counts (col : list str) : list (str * nat) := by_count_desc (Counter str_eqb col).

(** [series.reindex(order)]: the value at each label of [order], [None] (NaN)
    for a label the series does not have. *)
Definition reindex {V} (order : list str) (s : list (str * V)) : list (str * option V) :=
  map (fun k => (k, option_map snd (find (fun kv => str_eqb (fst kv) k) s))) order.

(** [df.groupby(key).count()['message']]: the distinct keys in ascending
    order, each with its number of rows. *)
Definition group_count {K} (eqb leb : K -> K -> bool) (keys : list K) : list (K * nat) :=
  sort_by (fun a b => leb (fst a) (fst b)) (Counter eqb keys).

(* ================================================================== *)
(** ** [helper.py] *)

Definition Overall : str := lit "Overall".

(** The opening lines of every aggregator:
    [if selected_user != 'Overall': df = df[df['user'] == selected_user]]. *)
Definition select_user (selected_user : str) (df : DataFrame) : DataFrame :=
  if negb (str_eqb selected_user Overall)
  then {| rows := filter (fun r => str_eqb (user r) selected_user) (rows df);
          text_dtype := text_dtype df |}
  else df.

(** [df[df['message'].str.contains('<Media omitted>', case=False, na=False)]]
    and its complement. *)
Definition is_media (msg : str) : bool := re_search media_pattern msg.

Definition media_rows (keep : bool) (df : DataFrame) : result DataFrame :=
  _ <- str_accessor df ;;
  Ok {| rows := filter (fun r => Bool.eqb (is_media (message r)) keep) (rows df);
        text_dtype := text_dtype df |}.

Definition fetch_stats (selected_user : str) (df : DataFrame) : result (nat * nat * nat * nat) :=
  let df := select_user selected_user df in
  let num_messages := length (rows df) in
  let words := flat_map (fun r => split_ws (message r)) (rows df) in
  media <- media_rows true df ;;
  let num_media_messages := length (rows media) in
  let links := flat_map (fun r => re_findall url_pattern (message r)) (rows df) in
  Ok (num_messages, length words, num_media_messages, length links).

(** [round(count / total * 100, 2)], kept as the fraction it is computed from. *)
Record Percent : Type := { pc_count : nat; pc_total : nat }.

Definition most_busy_users (df : DataFrame) : list (str * nat) * list (str * Percent) :=
  let counts := value_counts (map user (rows df)) in
  (firstn 5 counts,
   map (fun kv => (fst kv, {| pc_count := snd kv; pc_total := length (rows df) |})) counts).

(** [s.split('\n')]. *)
Fixpoint split_lines_aux (cur : str) (s : str) : list str :=
  match s with
  | [] => [rev cur]
  | c :: s' => if Ascii.eqb c "010"%char then rev cur :: split_lines_aux [] s'
               else split_lines_aux (c :: cur) s'
  end.
Definition split_lines (s : str) : list str := split_lines_aux [] s.

Definition mem (w : str) (l : list str) : bool := existsb (str_eqb w) l.

(** The rows both text pipelines start from: no notifications, no media
    messages, links removed from the text. *)
Definition text_rows (selected_user : str) (df : DataFrame) : result (list str) :=
  let df := select_user selected_user df in
  let temp := {| rows := filter (fun r => negb (str_eqb (user r) group_notification)) (rows df);
                 text_dtype := text_dtype df |} in
  temp <- media_rows false temp ;;
  Ok (map (fun r => re_sub url_pattern [] (message r)) (rows temp)).

(** [remove_stop_words] inside [create_wordcloud]; [stop_file] is the content
    of [stop_hinglish.txt], [None] when opening or reading it fails. *)
Definition remove_stop_words (stop_file : option str) (msg : str) : str :=
  match stop_file with
  | Some content =>
      let stop_words := split_lines content in
      let msg' := re_sub punct_pattern [] (lower msg) in
      join (lit " ") (filter (fun w => negb (mem w stop_words)) (split_ws msg'))
  | None => msg
  end.

(** What [create_wordcloud] returns: the cloud drawn from a text. *)
Inductive cloud : Type := Cloud (text : str).

(** [generate] is [WordCloud.generate]; it may raise (a text without words). *)
Definition create_wordcloud (generate : str -> result cloud) (stop_file : option str)
           (selected_user : str) (df : DataFrame) : result cloud :=
  let attempt :=
    msgs <- text_rows selected_user df ;;
    let all_words := join (lit " ") (map (remove_stop_words stop_file) msgs) in
    generate (if forallb is_space all_words then lit "No meaningful words found" else all_words) in
  match attempt with
  | Ok wc => Ok wc
  | Raise _ => generate (lit "Error")
  end.

(** [most_common_words]: the rows (word, count) of the frame returned. *)
Definition most_common_words (stop_file : option str) (selected_user : str) (df : DataFrame)
  : list (str * nat) :=
  let attempt :=
    msgs <- text_rows selected_user df ;;
    stop_words <- match stop_file with
                  | Some content => Ok (split_lines content)
                  | None => Raise OSError
                  end ;;
    let words :=
      flat_map (fun msg =>
                  filter (fun w => negb (mem w stop_words) && (1 <? length w))
                         (split_ws (re_sub punct_pattern [] (lower msg)))) msgs in
    Ok (firstn 20 (by_count_desc (Counter str_eqb words))) in
  match attempt with
  | Ok t => t
  | Raise _ => []
  end.

(** [emoji_helper]; [EMOJI_DATA] is the table of the [emoji] package. *)
Definition emoji_helper (EMOJI_DATA : ascii -> bool) (selected_user : str) (df : DataFrame)
  : list (ascii * nat) :=
  let df := select_user selected_user df in
  let emojis := flat_map (fun r => filter EMOJI_DATA (message r)) (rows df) in
  match emojis with
  | [] => []
  | _ => by_count_desc (Counter Ascii.eqb emojis)
  end.

Definition triple_eqb (a b : nat * nat * str) : bool :=
  (fst (fst a) =? fst (fst b)) && (snd (fst a) =? snd (fst b)) && str_eqb (snd a) (snd b).
Definition triple_leb (a b : nat * nat * str) : bool :=
  lex_leb [fst (fst a); snd (fst a)] [fst (fst b); snd (fst b)]
  && (negb ((fst (fst a) =? fst (fst b)) && (snd (fst a) =? snd (fst b))) || str_leb (snd a) (snd b)).

(** One row of the monthly timeline. *)
Record MonthRow : Type :=
  { m_year : nat; m_month_num : nat; m_month : str; m_message : nat; m_time : str }.

Definition monthly_timeline (selected_user : str) (df : DataFrame) : list MonthRow :=
  let df := select_user selected_user df in
  let timeline :=
    group_count triple_eqb triple_leb (map (fun r => (year r, month_num r, month r)) (rows df)) in
  let timeline :=
    map (fun kv => {| m_year := fst (fst (fst kv)); m_month_num := snd (fst (fst kv));
                      m_month := snd (fst kv); m_message := snd kv;
                      m_time := snd (fst kv) ++ lit "-" ++ str_of_nat (fst (fst (fst kv))) |})
        timeline in
  sort_by (fun a b => lex_leb [m_year a; m_month_num a] [m_year b; m_month_num b]) timeline.

Definition date_key (d : nat * nat * nat) : list nat := [fst (fst d); snd (fst d); snd d].
Definition date_eqb (a b : nat * nat * nat) : bool :=
  lex_leb (date_key a) (date_key b) && lex_leb (date_key b) (date_key a).

Definition daily_timeline (selected_user : str) (df : DataFrame) : list (nat * nat * nat * nat) :=
  let df := select_user selected_user df in
  let daily :=
    group_count date_eqb (fun a b => lex_leb (date_key a) (date_key b)) (map only_date (rows df)) in
  sort_by (fun a b => lex_leb (date_key (fst a)) (date_key (fst b))) daily.

Definition week_activity_map (selected_user : str) (df : DataFrame) : list (str * option nat) :=
  let df := select_user selected_user df in
  reindex day_order (value_counts (map day_name (rows df))).

Definition month_activity_map (selected_user : str) (df : DataFrame) : list (str * option nat) :=
  let df := select_user selected_user df in
  reindex month_order (value_counts (map month (rows df))).

(** A table of counts: its column labels and its labelled rows; a cell is
    [None] where the table holds NaN. *)
Record Table : Type := { columns : list str; index : list (str * list (option nat)) }.

Definition distinct_sorted (l : list str) : list str :=
  sort_by str_leb (map fst (Counter str_eqb l)).

(** [df.pivot_table(index='day_name', columns='period', values='message',
    aggfunc='count')]: a cell is NaN where no row has the pair. *)
Definition pivot_table (df : DataFrame) : Table :=
  let cols := distinct_sorted (map period (rows df)) in
  let cell d p :=
    match length (filter (fun r => str_eqb (day_name r) d && str_eqb (period r) p) (rows df)) with
    | 0 => None
    | n => Some n
    end in
  {| columns := cols;
     index := map (fun d => (d, map (cell d) cols)) (distinct_sorted (map day_name (rows df))) |}.

Definition fillna (v : nat) (t : Table) : Table :=
  {| columns := columns t;
     index := map (fun row => (fst row, map (fun c => match c with
                                                      | None => Some v
                                                      | Some n => Some n
                                                      end) (snd row))) (index t) |}.

(** [table.reindex(order)]: a label that the table lacks gets a row of NaN. *)
Definition reindex_rows (order : list str) (t : Table) : Table :=
  {| columns := columns t;
     index := map (fun k => (k, match find (fun row => str_eqb (fst row) k) (index t) with
                                | Some row => snd row
                                | None => map (fun _ => None) (columns t)
                                end)) order |}.

Definition activity_heatmap (selected_user : str) (df : DataFrame) : Table :=
  let df := select_user selected_user df in
  reindex_rows day_order (fillna 0 (pivot_table df)).

(* ================================================================== *)
(** * Notions used in the statements *)

(** [x] is what remains of [s] after a prefix. *)
Definition suffix_of {C} (x s : list C) : Prop := exists w, s = w ++ x.

(** The three-line export of the specification's example. *)
Definition example_export : str :=
  lit "12/08/23, 10:15 - Alice: Hello!
12/08/23, 10:16 - Bob: <Media omitted>
12/08/23, 10:17 - Alice: check www.x.com".

(** The marker WhatsApp writes in place of an attachment. *)
Definition media_marker : str := lit "<Media omitted>".

(** [msg] contains [marker] somewhere, letter case ignored. *)
Definition contains_ci (marker msg : str) : Prop :=
  exists pre mid post, msg = pre ++ mid ++ post /\ lower mid = lower marker.

(** [l], letter case ignored, starts [s]: what follows it. *)
Fixpoint strip_ci (l s : str) : option str :=
  match l, s with
  | [], _ => Some s
  | a :: l', c :: s' => if chr_i a c then strip_ci l' s' else None
  | _ :: _, [] => None
  end.

Definition empty_frame (d : dtype) : DataFrame := {| rows := []; text_dtype := d |}.

(** The frame [preprocess] returns for a text (an empty one if it raises). *)
Definition frame_of (data : str) : DataFrame :=
  match snd (preprocess data) with
  | Ok df => df
  | Raise _ => empty_frame Float64
  end.

(** The rows of one author. *)
Definition rows_of_user (u : str) (df : DataFrame) : DataFrame :=
  {| rows := filter (fun r => str_eqb (user r) u) (rows df); text_dtype := text_dtype df |}.

(** A chat one of whose participants is called Overall. *)
Definition overall_chat : str :=
  lit "1/1/23, 10:15 - Overall: hi
1/1/23, 10:16 - Bob: yo".

(** The text the word cloud is drawn from when no cleaning is applied. *)
Definition cloud_text (msgs : list str) : str :=
  let all_words := join (lit " ") msgs in
  if forallb is_space all_words then lit "No meaningful words found" else all_words.

(** No format of the chain parses the date. *)
Definition failed (date_str : str) : bool :=
  match parse_date date_str with
  | None => true
  | Some _ => false
  end.

(** A pattern without capturing groups. *)
Fixpoint groupless {C} (r : regex C) : bool :=
  match r with
  | Cat r1 r2 | Alt r1 r2 => groupless r1 && groupless r2
  | Opt r1 => groupless r1
  | Grp _ => false
  | _ => true
  end.

(** [s] starts with a colon and a whitespace character: what follows them. *)
Definition after_colon (s : str) : option str :=
  match s with
  | c :: w :: rest => if chr ":" c && is_space w then Some rest else None
  | _ => None
  end.

(** The first colon followed by whitespace in [s]: the text before the colon
    and the text after the whitespace character. *)
Fixpoint boundary (s : str) : option (str * str) :=
  match s with
  | [] => None
  | c :: s' =>
      match after_colon s with
      | Some rest => Some ([], rest)
      | None => option_map (fun nr => (c :: fst nr, snd nr)) (boundary s')
      end
  end.

(** The same, for a colon that has at least one character before it. *)
Definition name_boundary (s : str) : option (str * str) :=
  match s with
  | [] => None
  | c :: s' => option_map (fun nr => (c :: fst nr, snd nr)) (boundary s')
  end.


(** [chunk] is [name], a colon, a whitespace character and [rest], with a
    non-empty [name]. *)
Definition is_boundary (chunk name rest : str) : Prop :=
  name <> [] /\ exists w, is_space w = true /\ chunk = name ++ ":"%char :: w :: rest.

(** ... and no shorter [name] does. *)
Definition first_boundary (chunk name rest : str) : Prop :=
  is_boundary chunk name rest
  /\ forall name' rest', is_boundary chunk name' rest' -> length name <= length name'.

(** ** The timestamp pattern seen through character classes

    The timestamp pattern only asks of a character to which of nine classes it
    belongs; a pattern over such classes matches finitely many class words. *)

Definition cls (c : ascii) : nat :=
  if is_digit c then 0
  else if chr "/" c then 1
  else if chr "," c then 2
  else if is_space c then 3
  else if chr ":" c then 4
  else if one_of "APap" c then 5
  else if one_of "Mm" c then 6
  else if chr "-" c then 7
  else 8.

Inductive kre : Type :=
| KEps
| KTok (k : nat)
| KCat (a b : kre)
| KOpt (a : kre)
| KRep (k : nat) (lo hi : nat).

Definition kseq (rs : list kre) : kre := fold_right KCat KEps rs.

Fixpoint kre_regex (r : kre) : regex ascii :=
  match r with
  | KEps => Eps
  | KTok k => Cls (fun c => cls c =? k)
  | KCat a b => Cat (kre_regex a) (kre_regex b)
  | KOpt a => Opt (kre_regex a)
  | KRep k lo hi => Rep (fun c => cls c =? k) lo hi
  end.

(** The lengths [p{lo,hi}] can take, in the order the matcher tries them. *)
Fixpoint rep_lengths (lo hi : nat) : list nat :=
  match hi with
  | 0 => if lo =? 0 then [0] else []
  | S hi' => map S (rep_lengths (pred lo) hi') ++ (if lo =? 0 then [0] else [])
  end.

(** The class words of a pattern, in the order the matcher tries them. *)
Fixpoint words (r : kre) : list (list nat) :=
  match r with
  | KEps => [[]]
  | KTok k => [[k]]
  | KCat a b => flat_map (fun w1 => map (app w1) (words b)) (words a)
  | KOpt a => words a ++ [[]]
  | KRep k lo hi => map (repeat k) (rep_lengths lo hi)
  end.

(** The text left when the classes of [w] are those of the first characters. *)
Fixpoint strip_k (w : list nat) (s : str) : option str :=
  match w, s with
  | [], _ => Some s
  | k :: w', c :: s' => if cls c =? k then strip_k w' s' else None
  | _ :: _, [] => None
  end.

Definition opt_list {A} (o : option A) : list A :=
  match o with
  | Some a => [a]
  | None => []
  end.

Definition pattern_k : kre :=
  kseq [ KRep 0 1 2; KTok 1; KRep 0 1 2; KTok 1; KRep 0 2 4; KTok 2; KTok 3; KRep 0 1 2;
         KTok 4; KRep 0 2 2; KOpt (kseq [ KOpt (KTok 3); KTok 5; KTok 6 ]);
         KTok 3; KTok 7; KTok 3 ].

(** Two patterns of the same shape whose classes hold the same characters. *)
Fixpoint same_re {C} (r r' : regex C) : Prop :=
  match r, r' with
  | Eps, Eps => True
  | Cls p, Cls q | Plus p, Plus q | PlusLazy p, PlusLazy q => forall c, p c = q c
  | Cat a b, Cat a' b' | Alt a b, Alt a' b' => same_re a a' /\ same_re b b'
  | Opt a, Opt a' | Grp a, Grp a' => same_re a a'
  | Rep p lo hi, Rep q lo' hi' => (forall c, p c = q c) /\ lo = lo' /\ hi = hi'
  | _, _ => False
  end.

Fixpoint is_prefix (a b : list nat) : bool :=
  match a, b with
  | [], _ => true
  | x :: a', y :: b' => (x =? y) && is_prefix a' b'
  | _ :: _, [] => false
  end.

Definition comparable (a b : list nat) : bool := is_prefix a b || is_prefix b a.

(** No word starts another one of the list. *)
Fixpoint prefix_free (ws : list (list nat)) : bool :=
  match ws with
  | [] => true
  | w :: ws' => forallb (fun w' => negb (comparable w w')) ws' && prefix_free ws'
  end.

Definition is_nil {A} (l : list A) : bool := match l with [] => true | _ => false end.

Fixpoint splits (w : list nat) : list (list nat * list nat) :=
  ([], w) :: match w with
             | [] => []
             | k :: w' => map (fun ab => (k :: fst ab, snd ab)) (splits w')
             end.

(** No word, cut after a class other than the digits, continues with what
    starts or is started by a word. *)
Definition crossing_free (ws : list (list nat)) : bool :=
  forallb (fun w =>
             forallb (fun ab =>
                        is_nil (fst ab) || is_nil (snd ab) || (last (fst ab) 1 =? 0)
                        || forallb (fun w' => negb (comparable (snd ab) w')) ws)
                     (splits w)) ws.

(** ** Exports *)

(** The text starts with a timestamp. *)
Definition begins_with_timestamp (data : str) : bool :=
  match hit pattern data with
  | Some _ => true
  | None => false
  end.

Definition ends_with_digit (data : str) : bool :=
  match rev data with
  | c :: _ => is_digit c
  | [] => false
  end.

(** Two scans put end to end: the text after the last match of the first
    goes before the first match of the second. *)
Definition glue {C} (a b : list (found C) * list C) : list (found C) * list C :=
  match fst b with
  | [] => (fst a, snd a ++ snd b)
  | f :: fs => (fst a ++ Found (snd a ++ before f) (matched f) (groups f) :: fs, snd b)
  end.

(** Two exports of the specification's round-trip property. *)
Definition export_a : str := lit "1/1/23, 10:15 - Alice: hi 1".
Definition export_b : str := lit "2/1/23, 10:16 - Bob: yo".

(** The rows made from the (chunk, date) pairs whose date parses. *)
Definition parsed_rows (df : list (str * str)) : list Row :=
  flat_map (fun cd => match parse_date (snd cd) with
                      | Some t => [make_row t (split_user (fst cd))]
                      | None => []
                      end) df.

(** The diagnostics for the (chunk, date) pairs whose date does not parse. *)
Definition date_errors (df : list (str * str)) : list str :=
  flat_map (fun md => match parse_date (snd md) with
                      | None => [date_error (snd md)]
                      | Some _ => []
                      end) df.

(* ================================================================== *)
(** * The rest of [app.py]: the author list and the stop-word file *)

(** [series.unique().tolist()]: the distinct values in the order they first
    appear. *)
Definition unique (l : list str) : list str := map fst (Counter str_eqb l).

(** [list.remove(x)]: drops the first occurrence. *)
Fixpoint list_remove (x : str) (l : list str) : list str :=
  match l with
  | [] => []
  | y :: l' => if str_eqb y x then l' else y :: list_remove x l'
  end.

(** Lines 137-141: the choices of the 'Show analysis for' box. *)
Definition user_list (df : DataFrame) : list str :=
  let ul := unique (map user (rows df)) in
  let ul := if mem group_notification ul then list_remove group_notification ul else ul in
  let ul := sort_by str_leb ul in
  Overall :: ul.

Definition newline : ascii := "010"%char.

(** Lines 97-103: the words written when the file is missing. *)
Definition default_stop_words : list str :=
  map lit [ "a"; "an"; "and"; "are"; "as"; "at"; "be"; "by"; "for"; "from";
            "had"; "has"; "have"; "he"; "her"; "his"; "i"; "in"; "is"; "it";
            "ka"; "ke"; "ki"; "ko"; "main"; "me"; "mein"; "na"; "nahi"; "ne";
            "par"; "se"; "the"; "they"; "this"; "to"; "tu"; "tum"; "was"; "we";
            "were"; "with"; "ye"; "yeh" ]%string.

(** [ensure_stop_words_file_exists]; the state is the content of
    [stop_hinglish.txt], [None] when there is no such file. *)
Definition ensure_stop_words_file_exists (file : option str) : option str :=
  match file with
  | None => Some (join [newline] default_stop_words)
  | Some content => Some content
  end.

(* ================================================================== *)
(** * Notions used in the further statements *)

(** The number of elements of [xs] equal to [k]. *)
Definition occ {K} (eqb : K -> K -> bool) (k : K) (xs : list K) : nat :=
  length (filter (fun x => eqb x k) xs).

(* ------------------------------------------------------------------ *)
(** ** Text files *)

(** A file holds bytes.  [open(name, 'w')] writes a text with every ['\n']
    replaced by [os.linesep], in the preferred encoding of the platform;
    [open(name, 'r', encoding='utf-8')] decodes the bytes as UTF-8 and then
    reads ['\r\n'] and ['\r'] as ['\n'].  What is read is a sequence of code
    points, which need not stay below 256. *)
Definition CR : ascii := "013"%char.

(** [os.name], and the [os.linesep] that goes with it. *)
Inductive os_name : Type := posix | nt.

Definition linesep (o : os_name) : str :=
  match o with
  | posix => [newline]
  | nt => [CR; newline]
  end.

Definition translate_newlines (o : os_name) (text : str) : str :=
  flat_map (fun c => if Ascii.eqb c newline then linesep o else [c]) text.

(** [f.write(text)] on a file opened with [open(name, 'w')]; [encode] is the
    encoder of the preferred encoding, which may refuse a character. *)
Definition write_text (o : os_name) (encode : str -> result (list Byte.byte)) (text : str)
  : result (list Byte.byte) :=
  encode (translate_newlines o text).

(** The code points of a string. *)
Definition points (s : str) : list N := map N_of_ascii s.

Definition is_ascii (c : ascii) : bool := (N_of_ascii c <? 128)%N.

(** An encoding that writes each ASCII character as the byte of its code. *)
Definition ascii_compatible (encode : str -> result (list Byte.byte)) : Prop :=
  forall s, forallb is_ascii s = true -> encode s = Ok (map byte_of_ascii s).

(** The [latin-1] encoder: every code point below 256 is its own byte. *)
Definition latin_1 (s : str) : result (list Byte.byte) := Ok (map byte_of_ascii s).

(** The strict UTF-8 decoder, on the values of the bytes: the well-formed
    sequences of one to four bytes (no overlong form, no surrogate, nothing
    above U+10FFFF); anything else is a [UnicodeDecodeError], which is a
    [ValueError]. *)
Definition continuation (b : N) : bool := ((128 <=? b) && (b <=? 191))%N.

Definition second_of_3 (b0 b1 : N) : bool :=
  (if b0 =? 224 then (160 <=? b1) && (b1 <=? 191)
   else if b0 =? 237 then (128 <=? b1) && (b1 <=? 159)
   else continuation b1)%N.

Definition second_of_4 (b0 b1 : N) : bool :=
  (if b0 =? 240 then (144 <=? b1) && (b1 <=? 191)
   else if b0 =? 244 then (128 <=? b1) && (b1 <=? 143)
   else continuation b1)%N.

Fixpoint utf_8_decode (bs : list N) : result (list N) :=
  match bs with
  | [] => Ok []
  | b0 :: t =>
      if (b0 <? 128)%N then
        s <- utf_8_decode t ;; Ok (b0 :: s)
      else if ((194 <=? b0) && (b0 <=? 223))%N then
        match t with
        | b1 :: t1 =>
            if continuation b1
            then s <- utf_8_decode t1 ;; Ok (((b0 - 192) * 64 + (b1 - 128)) :: s)%N
            else Raise ValueError
        | _ => Raise ValueError
        end
      else if ((224 <=? b0) && (b0 <=? 239))%N then
        match t with
        | b1 :: b2 :: t2 =>
            if second_of_3 b0 b1 && continuation b2
            then s <- utf_8_decode t2 ;;
                 Ok (((b0 - 224) * 4096 + (b1 - 128) * 64 + (b2 - 128)) :: s)%N
            else Raise ValueError
        | _ => Raise ValueError
        end
      else if ((240 <=? b0) && (b0 <=? 244))%N then
        match t with
        | b1 :: b2 :: b3 :: t3 =>
            if second_of_4 b0 b1 && continuation b2 && continuation b3
            then s <- utf_8_decode t3 ;;
                 Ok (((b0 - 240) * 262144 + (b1 - 128) * 4096 + (b2 - 128) * 64 + (b3 - 128))
                       :: s)%N
            else Raise ValueError
        | _ => Raise ValueError
        end
      else Raise ValueError
  end.

(** Universal newlines: ['\r\n'] and a lone ['\r'] are read as ['\n']. *)
Fixpoint universal_newlines (s : list N) : list N :=
  match s with
  | [] => []
  | c :: t =>
      if (c =? 13)%N then
        10%N :: match t with
                | c' :: t' => if (c' =? 10)%N then universal_newlines t' else universal_newlines t
                | [] => []
                end
      else c :: universal_newlines t
  end.

(** [f.read()] on a file opened with [open(name, 'r', encoding='utf-8')]. *)
Definition read_text (file : list Byte.byte) : result (list N) :=
  s <- utf_8_decode (map Byte.to_N file) ;; Ok (universal_newlines s).

(** A character of a word that a text file keeps: ASCII, and no line end. *)
Definition plain (c : ascii) : bool :=
  is_ascii c && negb (Ascii.eqb c newline) && negb (Ascii.eqb c CR).

(** The count a table of counts gives for [k], 0 without an entry. *)
Definition count_of {K} (eqb : K -> K -> bool) (k : K) (c : list (K * nat)) : nat :=
  match find (fun kv => eqb (fst kv) k) c with
  | Some kv => snd kv
  | None => 0
  end.

(** [None] (NaN) for zero. *)
Definition positive (n : nat) : option nat :=
  match n with
  | 0 => None
  | _ => Some n
  end.

(** The rows of a weekday, and of a weekday and hour label. *)
Definition rows_on (d : str) (l : list Row) : list Row :=
  filter (fun r => str_eqb (day_name r) d) l.
Definition rows_at (d p : str) (l : list Row) : list Row :=
  filter (fun r => str_eqb (day_name r) d && str_eqb (period r) p) l.

Definition count_desc {K} (a b : K * nat) : Prop := snd b <= snd a.

Definition month_key (r : MonthRow) : list nat := [m_year r; m_month_num r].

(** Lexicographic order on lists of numbers of the same length. *)
Definition lex_le (a b : list nat) : Prop := lex_leb a b = true.

(** The value a [strptime] group may have. *)
Definition field_ok (d : directive) (v : str) : Prop :=
  match d with
  | Pd => 1 <= int_of v <= 31
  | Pm => 1 <= int_of v <= 12
  | Py => int_of v <= 99
  | PY => int_of v < 10 * 1000
  | PH => int_of v <= 23
  | PI => 1 <= int_of v <= 12
  | PM => int_of v <= 59
  | Pp => lower v = lit "am" \/ lower v = lit "pm"
  | _ => False
  end.

(** [parses r v g]: the pattern [r] matches the whole of [v], with the
    groups [g]. *)
Fixpoint parses {C} (r : regex C) (v : list C) (g : list (list C)) : Prop :=
  match r with
  | Eps => v = [] /\ g = []
  | Cls p => g = [] /\ exists c, v = [c] /\ p c = true
  | Cat r1 r2 => exists v1 v2 g1 g2,
      v = v1 ++ v2 /\ g = g1 ++ g2 /\ parses r1 v1 g1 /\ parses r2 v2 g2
  | Alt r1 r2 => parses r1 v g \/ parses r2 v g
  | Opt r1 => parses r1 v g \/ (v = [] /\ g = [])
  | Rep p lo hi => g = [] /\ lo <= length v <= hi /\ Forall (fun c => p c = true) v
  | Plus p | PlusLazy p => g = [] /\ 1 <= length v /\ Forall (fun c => p c = true) v
  | Grp r1 => exists g1, g = v :: g1 /\ parses r1 v g1
  end.

(** The labels of the twenty-four hours. *)
Definition period_labels : list str := map period_of (List.seq 0 24).

(* ================================================================== *)
(** * Properties of the matcher *)

Section RegexFacts.
Context {C : Type}.
Implicit Types (r : regex C) (s w : list C) (p : C -> bool).

Lemma suffix_refl s : suffix_of s s.
Proof. now exists []. Qed.

Lemma suffix_cons c x s : suffix_of x s -> suffix_of x (c :: s).
Proof. intros [w ->]. now exists (c :: w). Qed.

Lemma suffix_trans x y s : suffix_of x y -> suffix_of y s -> suffix_of x s.
Proof. intros [w ->] [v ->]. exists (v ++ w). now rewrite app_assoc. Qed.

Lemma suffix_length x s : suffix_of x s -> length x <= length s.
Proof. intros [w ->]. rewrite length_app. lia. Qed.

Lemma rep_greedy_suffix p lo hi s x : In x (rep_greedy p lo hi s) -> suffix_of x s.
Proof.
  revert lo s. induction hi as [|hi IH]; intros lo s H; simpl in H.
  - destruct (lo =? 0); destruct s; simpl in H; intuition; subst; apply suffix_refl.
  - destruct s as [|c s'].
    + destruct (lo =? 0); simpl in H; intuition; subst; apply suffix_refl.
    + apply in_app_or in H as [H|H].
      * destruct (p c); [|contradiction]. apply suffix_cons. eauto.
      * destruct (lo =? 0); simpl in H; intuition; subst; apply suffix_refl.
Qed.

Lemma star_greedy_suffix p s x : In x (star_greedy p s) -> suffix_of x s.
Proof.
  induction s as [|c s' IH]; simpl; intros H.
  - destruct H as [<-|[]]. apply suffix_refl.
  - apply in_app_or in H as [H|[<-|[]]]; [|apply suffix_refl].
    destruct (p c); [|contradiction]. apply suffix_cons; auto.
Qed.

Lemma star_lazy_suffix p s x : In x (star_lazy p s) -> suffix_of x s.
Proof.
  induction s as [|c s' IH]; simpl; intros H.
  - destruct H as [<-|[]]. apply suffix_refl.
  - destruct H as [<-|H]; [apply suffix_refl|].
    destruct (p c); [|contradiction]. apply suffix_cons; auto.
Qed.

Lemma rm_suffix r : forall s m, In m (rm r s) -> suffix_of (snd m) s.
Proof.
  induction r; intros s m H; simpl in H.
  - destruct H as [<-|[]]. apply suffix_refl.
  - destruct s as [|c s']; [contradiction|]. destruct (p c); [|contradiction].
    destruct H as [<-|[]]. apply suffix_cons, suffix_refl.
  - apply in_flat_map in H as (m1 & H1 & H2). apply in_map_iff in H2 as (m2 & <- & H2).
    simpl. eapply suffix_trans; eauto.
  - apply in_app_or in H as [H|H]; auto.
  - apply in_app_or in H as [H|[<-|[]]]; auto. apply suffix_refl.
  - apply in_map_iff in H as (x & <- & H). eapply rep_greedy_suffix; eauto.
  - apply in_map_iff in H as (x & <- & H). destruct s as [|c s']; [contradiction|].
    simpl in H. destruct (p c); [|contradiction].
    apply suffix_cons. eapply star_greedy_suffix; eauto.
  - apply in_map_iff in H as (x & <- & H). destruct s as [|c s']; [contradiction|].
    simpl in H. destruct (p c); [|contradiction].
    apply suffix_cons. eapply star_lazy_suffix; eauto.
  - apply in_map_iff in H as (x & <- & H). simpl. auto.
Qed.

Lemma match_at_suffix r s g rest : match_at r s = Some (g, rest) -> suffix_of rest s.
Proof.
  unfold match_at. intros H. destruct (rm r s) as [|m l] eqn:E; [discriminate|].
  injection H as ->. apply (rm_suffix r s (g, rest)). rewrite E. now left.
Qed.

Lemma rm_Cat r1 r2 s :
  rm (Cat r1 r2) s
  = flat_map (fun m1 => map (fun m2 => (fst m1 ++ fst m2, snd m2)) (rm r2 (snd m1))) (rm r1 s).
Proof. reflexivity. Qed.

Lemma rm_Grp r s :
  rm (Grp r) s = map (fun m => (firstn (length s - length (snd m)) s :: fst m, snd m)) (rm r s).
Proof. reflexivity. Qed.

Lemma hit_some r s g rest :
  hit r s = Some (g, rest) <-> match_at r s = Some (g, rest) /\ length rest < length s.
Proof.
  unfold hit. destruct (match_at r s) as [[g' rest']|]; [|split; [discriminate|intros [[=] _]]].
  destruct (length rest' <? length s) eqn:E.
  - apply Nat.ltb_lt in E. split; [intros [= -> ->]; auto|intros [[= -> ->] _]; auto].
  - apply Nat.ltb_ge in E. split; [discriminate|intros [[= -> ->] H]; lia].
Qed.

Lemma hit_shorter r s g rest : hit r s = Some (g, rest) -> length rest < length s.
Proof. intros H. now apply hit_some in H. Qed.

Lemma hit_suffix r s g rest : hit r s = Some (g, rest) -> suffix_of rest s.
Proof. intros H. apply hit_some in H as [H _]. eapply match_at_suffix; eauto. Qed.

(** The scan needs no more fuel than the length of the text. *)
Lemma finditer_fuel_enough r : forall n m s,
    length s <= n -> length s <= m -> finditer_fuel n r s = finditer_fuel m r s.
Proof.
  induction n as [|n IH]; intros m s Hn Hm.
  - destruct s; [|simpl in Hn; lia]. now destruct m.
  - destruct m as [|m]; [destruct s; [reflexivity|simpl in Hm; lia]|].
    destruct s as [|c s']; [reflexivity|]. cbn [finditer_fuel].
    destruct (hit r (c :: s')) as [[g rest]|] eqn:E.
    + apply hit_shorter in E. cbn [length] in *. f_equal. apply IH; lia.
    + cbn [length] in *. f_equal. apply IH; lia.
Qed.

Lemma finditer_nil r : finditer r [] = ([], []).
Proof. reflexivity. Qed.

(** The scan, one position at a time. *)
Lemma finditer_cons r c s :
  finditer r (c :: s) =
    match hit r (c :: s) with
    | Some (g, rest) =>
        emit (firstn (length (c :: s) - length rest) (c :: s)) g (finditer r rest)
    | None => skip c (finditer r s)
    end.
Proof.
  unfold finditer. change (length (c :: s)) with (S (length s)). cbn [finditer_fuel].
  change (length (c :: s)) with (S (length s)).
  destruct (hit r (c :: s)) as [[g rest]|] eqn:E; [|reflexivity].
  apply hit_shorter in E. cbn [length] in E. f_equal. apply finditer_fuel_enough; lia.
Qed.

(** Induction along the scan. *)
Lemma finditer_ind r (P : list C -> list (found C) * list C -> Prop) :
  P [] ([], []) ->
  (forall c s g rest,
      hit r (c :: s) = Some (g, rest) -> P rest (finditer r rest) ->
      P (c :: s) (emit (firstn (length (c :: s) - length rest) (c :: s)) g (finditer r rest))) ->
  (forall c s, hit r (c :: s) = None -> P s (finditer r s) -> P (c :: s) (skip c (finditer r s))) ->
  forall s, P s (finditer r s).
Proof.
  intros Hnil Hemit Hskip s.
  remember (length s) as n eqn:Hn. revert s Hn.
  induction n as [n IH] using lt_wf_ind. intros s Hn.
  destruct s as [|c s]; [exact Hnil|].
  rewrite finditer_cons. destruct (hit r (c :: s)) as [[g rest]|] eqn:E.
  - apply Hemit; [exact E|]. apply hit_shorter in E.
    apply (IH (length rest)); [lia|reflexivity].
  - apply Hskip; [exact E|]. apply (IH (length s)); [subst n; simpl; lia|reflexivity].
Qed.

(** [re.search] succeeds exactly when some position has a non-empty match. *)
Lemma re_search_true r s :
  re_search r s = true <->
  exists pre x g rest, s = pre ++ x /\ hit r x = Some (g, rest).
Proof.
  unfold re_search. induction s as [|c s IH].
  - rewrite finditer_nil. simpl. split; [discriminate|].
    intros (pre & x & g & rest & H & Hh).
    symmetry in H. apply app_eq_nil in H as [_ ->]. apply hit_shorter in Hh. simpl in Hh. lia.
  - rewrite finditer_cons. destruct (hit r (c :: s)) as [[g rest]|] eqn:E.
    + simpl. split; [intros _|reflexivity]. now exists [], (c :: s), g, rest.
    + assert (Hskip : match fst (skip c (finditer r s)) with [] => false | _ :: _ => true end
                      = match fst (finditer r s) with [] => false | _ :: _ => true end).
      { now destruct (finditer r s) as [[|f fs] tl]. }
      rewrite Hskip, IH. split.
      * intros (pre & x & g' & rest' & -> & Hh). now exists (c :: pre), x, g', rest'.
      * intros (pre & x & g' & rest' & H & Hh).
        destruct pre as [|c' pre]; [simpl in H; subst x; congruence|].
        injection H as _ ->. now exists pre, x, g', rest'.
Qed.

Lemma rm_groupless r : groupless r = true -> forall s m, In m (rm r s) -> fst m = [].
Proof.
  induction r; cbn [groupless]; intros G s m H; simpl in H;
    try apply andb_true_iff in G as [G1 G2]; try discriminate.
  - destruct H as [<-|[]]. reflexivity.
  - destruct s as [|c s']; [contradiction|]. destruct (p c); [|contradiction].
    destruct H as [<-|[]]. reflexivity.
  - apply in_flat_map in H as (m1 & H1 & H2). apply in_map_iff in H2 as (m2 & <- & H2).
    cbn [fst]. now rewrite (IHr1 G1 _ _ H1), (IHr2 G2 _ _ H2).
  - apply in_app_or in H as [H|H]; eauto.
  - apply in_app_or in H as [H|[<-|[]]]; eauto.
  - apply in_map_iff in H as (x & <- & _). reflexivity.
  - apply in_map_iff in H as (x & <- & _). reflexivity.
  - apply in_map_iff in H as (x & <- & _). reflexivity.
Qed.

Lemma hit_groupless r s g rest : groupless r = true -> hit r s = Some (g, rest) -> g = [].
Proof.
  intros G H. apply hit_some in H as [H _]. unfold match_at in H.
  destruct (rm r s) as [|m l] eqn:E; [discriminate|]. injection H as ->.
  apply (rm_groupless r G s (g, rest)). rewrite E. now left.
Qed.

Lemma finditer_groupless r s :
  groupless r = true -> Forall (fun f => groups f = []) (fst (finditer r s)).
Proof.
  intros G. apply (finditer_ind r (fun _ res => Forall (fun f => groups f = []) (fst res))).
  - constructor.
  - intros c s' g rest H IH. cbn [emit fst]. constructor; [|exact IH].
    cbn [groups]. eapply hit_groupless; eauto.
  - intros c s' _ IH. destruct (finditer r s') as [[|f fs] tl]; [constructor|].
    cbn [skip fst] in *. inversion IH; subst. constructor; auto.
Qed.

Lemma pieces_groupless (fs : list (found C)) :
  Forall (fun f => groups f = []) fs ->
  flat_map (fun f => before f :: groups f) fs = map before fs.
Proof.
  induction 1 as [|f fs Hf _ IH]; [reflexivity|].
  cbn [flat_map map]. now rewrite Hf, IH.
Qed.

Lemma re_split_groupless r s :
  groupless r = true ->
  re_split r s = map before (fst (finditer r s)) ++ [snd (finditer r s)].
Proof.
  intros G. pose proof (finditer_groupless r s G) as H.
  unfold re_split. destruct (finditer r s) as [fs tl0]. cbn [fst snd] in *.
  now rewrite pieces_groupless.
Qed.

Lemma re_findall_groupless r s :
  groupless r = true -> re_findall r s = map matched (fst (finditer r s)).
Proof.
  intros G. pose proof (finditer_groupless r s G) as H.
  unfold re_findall. induction H as [|f fs Hf _ IH]; [reflexivity|].
  cbn [map]. now rewrite Hf, IH.
Qed.

(** Without groups [re.split] gives one piece more than [re.findall] gives
    matches. *)
Lemma split_findall_length r s :
  groupless r = true -> length (tl (re_split r s)) = length (re_findall r s).
Proof.
  intros G. rewrite re_split_groupless, re_findall_groupless by exact G.
  destruct (fst (finditer r s)) as [|f fs]; [reflexivity|].
  cbn [map app tl length]. rewrite length_app, !length_map. cbn [length]. lia.
Qed.

End RegexFacts.

(** ** Literal patterns *)

Lemma rm_literal_i (l s : str) :
  rm (seq (map (fun a => Cls (chr_i a)) l)) s =
    match strip_ci l s with
    | Some rest => [([], rest)]
    | None => []
    end.
Proof.
  revert s. induction l as [|a l IH]; intros s; [reflexivity|].
  cbn [map seq fold_right rm]. fold (seq (map (fun a => Cls (chr_i a)) l)).
  destruct s as [|c s]; [reflexivity|]. cbn [strip_ci].
  destruct (chr_i a c); [|reflexivity].
  cbn [flat_map fst snd]. rewrite IH, app_nil_r. now destruct (strip_ci l s).
Qed.

Lemma strip_ci_spec (l s rest : str) :
  strip_ci l s = Some rest <-> exists mid, s = mid ++ rest /\ lower mid = lower l.
Proof.
  revert s. induction l as [|a l IH]; intros s.
  - simpl. split.
    + intros [= ->]. now exists [].
    + intros ([|c mid] & -> & H); [reflexivity|discriminate].
  - destruct s as [|c s]; simpl.
    + split; [discriminate|]. intros ([|c mid] & H & H'); discriminate.
    + unfold chr_i. destruct (Ascii.eqb_spec (lower_char a) (lower_char c)) as [E|E].
      * rewrite IH. split.
        -- intros (mid & -> & H). exists (c :: mid). split; [reflexivity|].
           unfold lower in *. simpl. now rewrite H, E.
        -- intros ([|c' mid] & H & H'); [discriminate|].
           injection H as -> ->. injection H' as _ H'. now exists mid.
      * split; [discriminate|].
        intros ([|c' mid] & H & H'); [discriminate|].
        injection H as -> _. injection H' as H' _. congruence.
Qed.

Lemma strip_ci_length (l s rest : str) :
  strip_ci l s = Some rest -> length s = length l + length rest.
Proof.
  revert s. induction l as [|a l IH]; intros s; simpl.
  - now intros [= ->].
  - destruct s as [|c s]; [discriminate|]. destruct (chr_i a c); [|discriminate].
    intros H. apply IH in H. simpl. lia.
Qed.

(** ** Results *)

Lemma Ok_inj {A} (a b : A) : Ok a = Ok b -> a = b.
Proof. intros H. now injection H. Qed.

(** ** Strings *)

Lemma str_eqb_eq (a b : str) : str_eqb a b = true <-> a = b.
Proof.
  revert b. induction a as [|x a IH]; intros [|y b]; simpl; try (split; congruence).
  rewrite andb_true_iff, IH, Ascii.eqb_eq. split; [intros [-> ->]|intros [= -> ->]]; auto.
Qed.

Lemma str_eqb_refl (a : str) : str_eqb a a = true.
Proof. now apply str_eqb_eq. Qed.

(** ** The author filter *)

Lemma select_user_Overall df : select_user Overall df = df.
Proof. reflexivity. Qed.

Lemma select_user_dtype su df : text_dtype (select_user su df) = text_dtype df.
Proof. unfold select_user. now destruct (negb _). Qed.

Lemma select_user_cases su df :
  select_user su df = if str_eqb su Overall then df else rows_of_user su df.
Proof. unfold select_user. now destruct (str_eqb su Overall). Qed.

(** ** Lists *)

Lemma combine_map_same {A B D} (f : A -> B) (g : A -> D) (l : list A) :
  combine (map f l) (map g l) = map (fun x => (f x, g x)) l.
Proof. induction l as [|x l IH]; [reflexivity|]. simpl. now rewrite IH. Qed.

Lemma map_snd_combine {A B} (a : list A) (b : list B) :
  length a = length b -> map snd (combine a b) = b.
Proof.
  revert b. induction a as [|x a IH]; intros [|y b] H; try discriminate; [reflexivity|].
  simpl. f_equal. apply IH. now injection H.
Qed.

Lemma flat_map_map {A B D} (f : A -> B) (g : B -> list D) (l : list A) :
  flat_map g (map f l) = flat_map (fun x => g (f x)) l.
Proof. induction l as [|x l IH]; [reflexivity|]. simpl. now rewrite IH. Qed.

Lemma map_flat_map {A B D} (f : B -> D) (g : A -> list B) (l : list A) :
  map f (flat_map g l) = flat_map (fun x => map f (g x)) l.
Proof. induction l as [|x l IH]; [reflexivity|]. simpl. now rewrite map_app, IH. Qed.

Lemma flat_map_filter_map {A B} (p : A -> bool) (f : A -> B) (l : list A) :
  flat_map (fun x => if p x then [f x] else []) l = map f (filter p l).
Proof.
  induction l as [|x l IH]; [reflexivity|]. simpl. rewrite IH. now destruct (p x).
Qed.

(** ** The author pattern *)

Lemma any_char_true c : any_char c = true.
Proof. unfold any_char. now destruct (is_word c). Qed.

Lemma rm_colon_space (x : str) :
  rm (seq [Cls (chr ":"); Cls is_space]) x =
    match after_colon x with
    | Some rest => [([], rest)]
    | None => []
    end.
Proof.
  destruct x as [|c [|w rest]]; cbn [seq fold_right rm after_colon].
  - reflexivity.
  - destruct (chr ":" c); reflexivity.
  - destruct (chr ":" c); [|reflexivity]. cbn [flat_map fst snd app map].
    destruct (is_space w); reflexivity.
Qed.

(** The lazy name: the candidates are tried shortest first. *)
Lemma lazy_name_first (pre s : str) :
  hd_error
    (flat_map (fun m1 => map (fun m2 => (fst m1 ++ fst m2, snd m2))
                             (rm (seq [Cls (chr ":"); Cls is_space]) (snd m1)))
              (map (fun x => (firstn (length (pre ++ s) - length x) (pre ++ s) :: @nil str, x))
                   (star_lazy any_char s)))
  = option_map (fun nr => ([pre ++ fst nr], snd nr)) (boundary s).
Proof.
  revert pre. induction s as [|c s IH]; intros pre.
  - reflexivity.
  - cbn [star_lazy map flat_map fst snd boundary]. rewrite any_char_true, rm_colon_space.
    destruct (after_colon (c :: s)) as [rest|] eqn:E.
    + cbn [map app hd_error option_map fst snd].
      replace (length (pre ++ c :: s) - length (c :: s)) with (length pre)
        by (rewrite length_app; lia).
      rewrite firstn_app, Nat.sub_diag, firstn_all. cbn [firstn]. now rewrite !app_nil_r.
    + cbn [map app]. specialize (IH (pre ++ [c])).
      rewrite <- app_assoc in IH. cbn [app] in IH. rewrite IH.
      destruct (boundary s) as [[n r]|]; [|reflexivity].
      cbn [option_map fst snd]. now rewrite <- app_assoc.
Qed.

Lemma match_at_user_pattern (s : str) :
  match_at user_pattern s = option_map (fun nr => ([fst nr], snd nr)) (name_boundary s).
Proof.
  unfold match_at, user_pattern. destruct s as [|c s]; [reflexivity|].
  change (seq [Grp (PlusLazy any_char); Cls (chr ":"); Cls is_space])
    with (Cat (Grp (PlusLazy any_char)) (seq [Cls (chr ":"); Cls is_space])).
  rewrite rm_Cat, rm_Grp. cbn [rm plus_of]. rewrite any_char_true.
  unfold no_groups. rewrite map_map. cbn [fst snd name_boundary].
  pose proof (lazy_name_first [c] s) as H. cbn [app] in H.
  etransitivity; [exact H|]. destruct (boundary s) as [[n r]|]; reflexivity.
Qed.

Lemma boundary_suffix s name rest : boundary s = Some (name, rest) -> s = name ++ skipn (length name) s
                                    /\ length rest + 2 + length name = length s.
Proof.
  revert name rest. induction s as [|c s IH]; intros name rest; [discriminate|].
  cbn [boundary]. destruct (after_colon (c :: s)) as [r|] eqn:E.
  - intros [= <- <-]. split; [reflexivity|]. unfold after_colon in E.
    destruct s as [|w s']; [discriminate|]. destruct (chr ":" c && is_space w); [|discriminate].
    injection E as ->. simpl. lia.
  - destruct (boundary s) as [[n r]|]; [|discriminate]. cbn [option_map fst snd].
    intros [= <- <-]. destruct (IH n r eq_refl) as [H1 H2]. split.
    + cbn [length skipn app]. now f_equal.
    + simpl. lia.
Qed.

Lemma hit_user_pattern (s : str) :
  hit user_pattern s = option_map (fun nr => ([fst nr], snd nr)) (name_boundary s).
Proof.
  unfold hit. rewrite match_at_user_pattern.
  destruct s as [|c s]; [reflexivity|]. cbn [name_boundary].
  destruct (boundary s) as [[n r]|] eqn:E; [|reflexivity]. cbn [option_map fst snd].
  apply boundary_suffix in E as [_ E].
  replace (length r <? length (c :: s)) with true; [reflexivity|].
  symmetry. apply Nat.ltb_lt. simpl. lia.
Qed.

Lemma boundary_none_tl c s : boundary (c :: s) = None -> boundary s = None.
Proof.
  cbn [boundary]. destruct (after_colon (c :: s)); [discriminate|].
  now destruct (boundary s).
Qed.

Lemma name_boundary_none_tl c s : name_boundary (c :: s) = None -> name_boundary s = None.
Proof.
  cbn [name_boundary]. destruct (boundary s) as [nr|] eqn:E; [discriminate|]. intros _.
  destruct s as [|c' s']; [reflexivity|]. cbn [name_boundary].
  now rewrite (boundary_none_tl c' s' E).
Qed.

Lemma finditer_no_name s : name_boundary s = None -> finditer user_pattern s = ([], s).
Proof.
  induction s as [|c s IH]; intros H; [reflexivity|].
  rewrite finditer_cons, hit_user_pattern, H. cbn [option_map].
  now rewrite (IH (name_boundary_none_tl c s H)).
Qed.

(** [re.split] with the author pattern, one boundary at a time. *)
Lemma re_split_user_pattern s :
  re_split user_pattern s =
    match name_boundary s with
    | Some (name, rest) => [] :: name :: re_split user_pattern rest
    | None => [s]
    end.
Proof.
  unfold re_split. destruct (name_boundary s) as [[name rest]|] eqn:E.
  - destruct s as [|c s]; [discriminate|].
    rewrite finditer_cons, hit_user_pattern, E. cbn [option_map fst snd].
    destruct (finditer user_pattern rest) as [fs tl0]. reflexivity.
  - now rewrite finditer_no_name.
Qed.

Lemma after_colon_spec s rest :
  after_colon s = Some rest <-> exists w, is_space w = true /\ s = ":"%char :: w :: rest.
Proof.
  destruct s as [|c [|w s']]; cbn [after_colon].
  - split; [discriminate|]. intros (w & _ & H). discriminate.
  - split; [discriminate|]. intros (w & _ & H). discriminate.
  - unfold chr. destruct (Ascii.eqb_spec ":"%char c) as [Hc|Hc]; [subst c|]; cbn [andb].
    + destruct (is_space w) eqn:Hw.
      * split.
        -- intros H. injection H as H. subst rest. now exists w.
        -- intros (w' & _ & H). injection H as H1 H2. now subst.
      * split; [discriminate|]. intros (w' & Hw' & H). injection H as H1 H2. congruence.
    + split; [discriminate|]. intros (w' & _ & H). injection H as H0 H1 H2. congruence.
Qed.

Lemma boundary_some s : forall n r,
  boundary s = Some (n, r) ->
  (exists w, is_space w = true /\ s = n ++ ":"%char :: w :: r)
  /\ (forall n' w' r', is_space w' = true -> s = n' ++ ":"%char :: w' :: r' ->
                       length n <= length n').
Proof.
  induction s as [|c s IH]; intros n r; [discriminate|].
  cbn [boundary]. destruct (after_colon (c :: s)) as [rest|] eqn:E.
  - intros [= <- <-]. split; [|intros; simpl; lia].
    now apply after_colon_spec in E.
  - destruct (boundary s) as [[n0 r0]|]; [|discriminate]. cbn [option_map fst snd].
    intros [= <- <-]. destruct (IH n0 r0 eq_refl) as [(w & Hw & ->) Hmin]. split.
    + now exists w.
    + intros [|c' n'] w' r' Hw' H.
      * exfalso. assert (after_colon (c :: n0 ++ ":"%char :: w :: r0) = Some r')
          by (apply after_colon_spec; now exists w'). congruence.
      * injection H as _ H. apply Hmin in H; [simpl; lia|exact Hw'].
Qed.


Lemma name_boundary_some s n r : name_boundary s = Some (n, r) -> first_boundary s n r.
Proof.
  destruct s as [|c s]; [discriminate|]. cbn [name_boundary].
  destruct (boundary s) as [[n0 r0]|] eqn:E; [|discriminate]. cbn [option_map fst snd].
  intros [= <- <-]. destruct (boundary_some s n0 r0 E) as [(w & Hw & ->) Hmin].
  split.
  - split; [discriminate|]. now exists w.
  - intros n' r' [Hne (w' & Hw' & H)]. destruct n' as [|c' n']; [congruence|].
    injection H as _ H. apply Hmin in H; [simpl; lia|exact Hw'].
Qed.



(** ** Patterns that differ in the writing of their classes only *)

Section SameRegex.
Context {C : Type}.

Lemma rep_greedy_ext (p q : C -> bool) lo hi s :
  (forall c, p c = q c) -> rep_greedy p lo hi s = rep_greedy q lo hi s.
Proof.
  intros H. revert lo s. induction hi as [|hi IH]; intros lo s; [reflexivity|].
  destruct s as [|c s]; [reflexivity|]. cbn [rep_greedy]. now rewrite H, IH.
Qed.

Lemma star_greedy_ext (p q : C -> bool) s :
  (forall c, p c = q c) -> star_greedy p s = star_greedy q s.
Proof.
  intros H. induction s as [|c s IH]; [reflexivity|]. cbn [star_greedy]. now rewrite H, IH.
Qed.

Lemma star_lazy_ext (p q : C -> bool) s :
  (forall c, p c = q c) -> star_lazy p s = star_lazy q s.
Proof.
  intros H. induction s as [|c s IH]; [reflexivity|]. cbn [star_lazy]. now rewrite H, IH.
Qed.

Lemma rm_ext (r r' : regex C) : same_re r r' -> forall s, rm r s = rm r' s.
Proof.
  revert r'. induction r; intros r' H s; destruct r'; cbn [same_re] in H; try contradiction;
    cbn [rm].
  - reflexivity.
  - destruct s as [|c s]; [reflexivity|]. now rewrite H.
  - destruct H as [H1 H2]. rewrite (IHr1 _ H1 s). apply flat_map_ext. intros m1.
    now rewrite (IHr2 _ H2).
  - destruct H as [H1 H2]. now rewrite (IHr1 _ H1 s), (IHr2 _ H2 s).
  - now rewrite (IHr _ H s).
  - destruct H as (H & -> & ->). now rewrite (rep_greedy_ext p p0 _ _ s H).
  - unfold plus_of. destruct s as [|c s]; [reflexivity|].
    now rewrite H, (star_greedy_ext p p0 s H).
  - unfold plus_of. destruct s as [|c s]; [reflexivity|].
    now rewrite H, (star_lazy_ext p p0 s H).
  - now rewrite (IHr _ H s).
Qed.

End SameRegex.

(** ** Class words *)

Lemma strip_k_app_w w1 w2 s :
  strip_k (w1 ++ w2) s = match strip_k w1 s with
                         | Some x => strip_k w2 x
                         | None => None
                         end.
Proof.
  revert s. induction w1 as [|k w1 IH]; intros s; [reflexivity|].
  destruct s as [|c s]; cbn [app strip_k]; [reflexivity|].
  destruct (cls c =? k); [apply IH|reflexivity].
Qed.

Lemma flat_map_flat_map {A B D} (f : A -> list B) (g : B -> list D) (l : list A) :
  flat_map g (flat_map f l) = flat_map (fun x => flat_map g (f x)) l.
Proof.
  induction l as [|x l IH]; [reflexivity|]. cbn [flat_map]. now rewrite flat_map_app, IH.
Qed.

Lemma flat_map_nil {A B} (f : A -> list B) (l : list A) :
  (forall x, In x l -> f x = []) -> flat_map f l = [].
Proof.
  induction l as [|x l IH]; intros H; [reflexivity|]. cbn [flat_map].
  rewrite (H x (or_introl eq_refl)), IH; [reflexivity|]. intros y Hy. apply H. now right.
Qed.

Lemma rep_words k s : forall lo hi,
  rep_greedy (fun c => cls c =? k) lo hi s
  = flat_map (fun w => opt_list (strip_k w s)) (map (repeat k) (rep_lengths lo hi)).
Proof.
  intros lo hi. revert lo s. induction hi as [|hi IH]; intros lo s.
  - cbn [rep_greedy rep_lengths]. destruct s, (lo =? 0); reflexivity.
  - cbn [rep_lengths]. rewrite map_app, flat_map_app, map_map, flat_map_map.
    assert (Hlast : flat_map (fun w => opt_list (strip_k w s))
                             (map (repeat k) (if lo =? 0 then [0] else []))
                    = if lo =? 0 then [s] else []).
    { destruct (lo =? 0); [|reflexivity]. now destruct s. }
    rewrite Hlast. destruct s as [|c s]; cbn [rep_greedy].
    + replace (flat_map _ (rep_lengths (pred lo) hi)) with (@nil str); [reflexivity|].
      symmetry. apply flat_map_nil. intros n _. reflexivity.
    + f_equal. cbn [repeat strip_k]. destruct (cls c =? k).
      * now rewrite IH, flat_map_map.
      * symmetry. apply flat_map_nil. intros n _. reflexivity.
Qed.

(** The remainders the matcher finds are those the class words leave. *)
Lemma rm_words r : forall s,
  map snd (rm (kre_regex r) s) = flat_map (fun w => opt_list (strip_k w s)) (words r).
Proof.
  induction r as [|k|a IHa b IHb|a IHa|k lo hi]; intros s; cbn [kre_regex words rm].
  - reflexivity.
  - destruct s as [|c s]; cbn [flat_map strip_k]; [reflexivity|].
    now destruct (cls c =? k).
  - rewrite map_flat_map.
    assert (H : forall m1, map snd (map (fun m2 => (fst m1 ++ fst m2, snd m2))
                                        (rm (kre_regex b) (snd m1)))
                           = flat_map (fun w => opt_list (strip_k w (snd m1))) (words b)).
    { intros m1. rewrite map_map. cbn [snd]. apply IHb. }
    rewrite (flat_map_ext _ _ H).
    rewrite <- (flat_map_map snd (fun x => flat_map (fun w => opt_list (strip_k w x)) (words b))).
    rewrite IHa, !flat_map_flat_map.
    apply flat_map_ext. intros w1. rewrite flat_map_map.
    destruct (strip_k w1 s) as [x|] eqn:E; cbn [opt_list flat_map].
    + rewrite app_nil_r. apply flat_map_ext. intros w2. now rewrite strip_k_app_w, E.
    + symmetry. apply flat_map_nil. intros w2 _. now rewrite strip_k_app_w, E.
  - rewrite map_app, IHa, flat_map_app. reflexivity.
  - unfold no_groups. rewrite map_map. cbn [snd]. rewrite map_id. apply rep_words.
Qed.

Lemma strip_k_length w s rest : strip_k w s = Some rest -> length s = length w + length rest.
Proof.
  revert s. induction w as [|k w IH]; intros s; cbn [strip_k].
  - now intros [= ->].
  - destruct s as [|c s]; [discriminate|]. destruct (cls c =? k); [|discriminate].
    intros H. apply IH in H. simpl. lia.
Qed.

(** More text after the match changes nothing. *)
Lemma strip_k_ext w x t r : strip_k w x = Some r -> strip_k w (x ++ t) = Some (r ++ t).
Proof.
  revert x. induction w as [|k w IH]; intros x; cbn [strip_k].
  - now intros [= ->].
  - destruct x as [|c x]; [discriminate|]. cbn [app strip_k].
    destruct (cls c =? k); [apply IH|discriminate].
Qed.

(** A match in [x ++ t] either stays inside [x] or uses up [x] and goes on
    in [t]. *)
Lemma strip_k_app_s w : forall x t rest,
  strip_k w (x ++ t) = Some rest ->
  (exists r, strip_k w x = Some r /\ rest = r ++ t)
  \/ (exists a b, w = a ++ b /\ a = map cls x /\ b <> [] /\ strip_k b t = Some rest).
Proof.
  induction w as [|k w IH]; intros x t rest H.
  - left. exists x. cbn [strip_k] in *. now injection H as <-.
  - destruct x as [|c x].
    + right. exists [], (k :: w). repeat split; [discriminate|exact H].
    + cbn [app strip_k] in *. destruct (cls c =? k) eqn:E; [|discriminate].
      apply Nat.eqb_eq in E. destruct (IH x t rest H) as [(r & Hr & ->)|(a & b & -> & -> & Hb & Hs)].
      * left. now exists r.
      * right. exists (cls c :: map cls x), b. subst k. repeat split; auto.
Qed.

Lemma is_prefix_true a b : is_prefix a b = true <-> exists t, b = a ++ t.
Proof.
  revert b. induction a as [|x a IH]; intros b; cbn [is_prefix].
  - split; [intros _; now exists b|reflexivity].
  - destruct b as [|y b]; [split; [discriminate|intros [t H]; discriminate]|].
    rewrite andb_true_iff, Nat.eqb_eq, IH. split.
    + intros [-> [t ->]]. now exists t.
    + intros [t [= -> ->]]. split; [reflexivity|now exists t].
Qed.

(** Two words that both start the same text: one starts the other. *)
Lemma strip_k_comparable w1 w2 : forall s r1 r2,
  strip_k w1 s = Some r1 -> strip_k w2 s = Some r2 -> comparable w1 w2 = true.
Proof.
  unfold comparable. revert w2. induction w1 as [|k1 w1 IH]; intros w2 s r1 r2 H1 H2.
  - reflexivity.
  - destruct w2 as [|k2 w2]; [apply orb_true_r|].
    destruct s as [|c s]; [discriminate|]. cbn [strip_k is_prefix] in *.
    destruct (cls c =? k1) eqn:E1; [|discriminate].
    destruct (cls c =? k2) eqn:E2; [|discriminate].
    apply Nat.eqb_eq in E1, E2. subst k1 k2. rewrite Nat.eqb_refl. cbn [andb].
    eapply IH; eauto.
Qed.

(** With a prefix-free list of words at most one of them starts a text. *)
Lemma prefix_free_unique ws s :
  prefix_free ws = true -> length (flat_map (fun w => opt_list (strip_k w s)) ws) <= 1.
Proof.
  induction ws as [|w ws IH]; intros H; [simpl; lia|].
  cbn [prefix_free] in H. apply andb_true_iff in H as [H1 H2]. cbn [flat_map].
  destruct (strip_k w s) as [r|] eqn:E; cbn [opt_list app]; [|auto].
  rewrite flat_map_nil; [simpl; lia|].
  intros w' Hw'. destruct (strip_k w' s) as [r'|] eqn:E'; [|reflexivity].
  rewrite forallb_forall in H1. specialize (H1 w' Hw').
  now rewrite (strip_k_comparable w w' s r r' E E') in H1.
Qed.

Lemma in_strips ws s rest :
  In rest (flat_map (fun w => opt_list (strip_k w s)) ws)
  <-> exists w, In w ws /\ strip_k w s = Some rest.
Proof.
  rewrite in_flat_map. split; intros (w & Hw & H); exists w; (split; [exact Hw|]).
  - destruct (strip_k w s); [destruct H as [->|[]]; reflexivity|contradiction].
  - rewrite H. now left.
Qed.

(** ** The timestamp pattern *)

Ltac all_chars c := destruct c as [[] [] [] [] [] [] [] []]; reflexivity.

Lemma pattern_classes : same_re pattern (kre_regex pattern_k).
Proof.
  cbn. repeat split; intros c; all_chars c.
Qed.

Lemma pattern_words_checked :
  prefix_free (words pattern_k) = true
  /\ crossing_free (words pattern_k) = true
  /\ forallb (fun w => negb (is_nil w)) (words pattern_k) = true.
Proof.
  split; [vm_compute; reflexivity|]. split; vm_compute; reflexivity.
Qed.

Lemma pattern_groupless : groupless pattern = true.
Proof. reflexivity. Qed.

(** A hit of the timestamp pattern is a class word that starts the text;
    there is at most one. *)
Lemma hit_pattern_iff s g rest :
  hit pattern s = Some (g, rest)
  <-> g = [] /\ exists w, In w (words pattern_k) /\ strip_k w s = Some rest.
Proof.
  destruct pattern_words_checked as (Hfree & _ & Hne).
  pose proof (rm_words pattern_k s) as Hw. rewrite <- (rm_ext _ _ pattern_classes) in Hw.
  pose proof (prefix_free_unique (words pattern_k) s Hfree) as Hu. rewrite <- Hw in Hu.
  assert (Hshort : forall w r, In w (words pattern_k) -> strip_k w s = Some r ->
                               length r < length s).
  { intros w r Hin Hs. apply strip_k_length in Hs.
    rewrite forallb_forall in Hne. specialize (Hne w Hin). destruct w; [discriminate|].
    simpl in Hs. lia. }
  split.
  - intros H. split; [exact (hit_groupless pattern s g rest pattern_groupless H)|].
    apply hit_some in H as [H _]. unfold match_at in H.
    destruct (rm pattern s) as [|m l] eqn:E; [discriminate|]. injection H as ->.
    apply in_strips. rewrite <- Hw. now left.
  - intros [-> (w & Hin & Hs)].
    assert (Hr : In rest (map snd (rm pattern s))) by (rewrite Hw; apply in_strips; eauto).
    apply hit_some. split; [|eauto]. unfold match_at.
    destruct (rm pattern s) as [|[g r] l] eqn:E; [contradiction|].
    destruct l; [|simpl in Hu; lia]. destruct Hr as [<-|[]]. cbn [hd_error snd].
    assert (Hg : fst (g, r) = []).
    { apply (rm_groupless pattern pattern_groupless s). rewrite E. now left. }
    cbn [fst] in Hg. now subst g.
Qed.

Lemma cls_digit c : (cls c =? 0) = is_digit c.
Proof. all_chars c. Qed.

Lemma in_splits a b : In (a, b) (splits (a ++ b)).
Proof.
  induction a as [|k a IH]; cbn [app splits].
  - destruct b; now left.
  - right. apply in_map_iff. now exists (a, b).
Qed.

Lemma ends_with_digit_last x c : ends_with_digit (x ++ [c]) = is_digit c.
Proof. unfold ends_with_digit. now rewrite rev_app_distr. Qed.

Lemma ends_with_digit_suffix (rest s : str) :
  suffix_of rest s -> ends_with_digit s = false -> ends_with_digit rest = false.
Proof.
  intros [w ->]. destruct rest as [|c rest] using rev_ind; [reflexivity|].
  now rewrite app_assoc, !ends_with_digit_last.
Qed.

(** A timestamp found in a text is found, the same, when more text follows. *)
Lemma hit_pattern_ext x t g rest :
  hit pattern x = Some (g, rest) -> hit pattern (x ++ t) = Some (g, rest ++ t).
Proof.
  rewrite !hit_pattern_iff. intros [-> (w & Hin & Hs)]. split; [reflexivity|].
  exists w. split; [exact Hin|]. now apply strip_k_ext.
Qed.

(** No timestamp starts in a text that does not end with a digit and runs
    into a following text that starts with a timestamp. *)
Lemma hit_pattern_seam x b :
  x <> [] -> ends_with_digit x = false -> begins_with_timestamp b = true ->
  hit pattern x = None -> hit pattern (x ++ b) = None.
Proof.
  intros Hx Hend Hb Hnone.
  destruct (hit pattern (x ++ b)) as [[g rest]|] eqn:E; [exfalso|reflexivity].
  apply hit_pattern_iff in E as [-> (w & Hin & Hs)].
  apply strip_k_app_s in Hs as [(r & Hr & _)|(a & b' & -> & -> & Hb' & Hs)].
  - assert (H : hit pattern x = Some ([], r)) by (apply hit_pattern_iff; eauto). congruence.
  - unfold begins_with_timestamp in Hb.
    destruct (hit pattern b) as [[g' rest']|] eqn:E'; [|discriminate].
    apply hit_pattern_iff in E' as [_ (w' & Hin' & Hs')].
    destruct pattern_words_checked as (_ & Hcross & _). unfold crossing_free in Hcross.
    rewrite forallb_forall in Hcross. specialize (Hcross _ Hin).
    rewrite forallb_forall in Hcross. specialize (Hcross _ (in_splits (map cls x) b')).
    cbn [fst snd] in Hcross.
    destruct x as [|c x] using rev_ind; [congruence|]. clear IHx.
    rewrite ends_with_digit_last in Hend.
    rewrite map_app in Hcross. cbn [map] in Hcross. rewrite last_last in Hcross.
    rewrite cls_digit, Hend in Hcross.
    destruct (map cls x ++ [cls c]) eqn:Ea; [now destruct (map cls x)|].
    destruct b' as [|k b']; [congruence|]. cbn [is_nil orb] in Hcross.
    rewrite forallb_forall in Hcross. specialize (Hcross _ Hin').
    now rewrite (strip_k_comparable (k :: b') w' b rest rest' Hs Hs') in Hcross.
Qed.

(** ** Scanning two texts put end to end *)

Section Glue.
Context {C : Type}.
Implicit Types (a b : list (found C) * list C).

Lemma glue_nil_l b : glue ([], []) b = b.
Proof. destruct b as [[|[bf m g] fs] tl]; reflexivity. Qed.

Lemma glue_emit m g a b : glue (emit m g a) b = emit m g (glue a b).
Proof. destruct a as [fa ta], b as [[|f fs] tb]; reflexivity. Qed.

Lemma glue_skip c a b : glue (skip c a) b = skip c (glue a b).
Proof. destruct a as [[|f' fa] ta], b as [[|f fs] tb]; reflexivity. Qed.

End Glue.

Lemma finditer_pattern_app b :
  begins_with_timestamp b = true ->
  forall x, ends_with_digit x = false ->
            finditer pattern (x ++ b) = glue (finditer pattern x) (finditer pattern b).
Proof.
  intros Hb x.
  apply (finditer_ind pattern
           (fun x res => ends_with_digit x = false ->
                         finditer pattern (x ++ b) = glue res (finditer pattern b))).
  - intros _. now rewrite glue_nil_l.
  - intros c s g rest Hhit IH Hend.
    assert (Hsuf : suffix_of rest (c :: s)) by (eapply hit_suffix; eauto).
    rewrite glue_emit, <- (IH (ends_with_digit_suffix rest (c :: s) Hsuf Hend)).
    change ((c :: s) ++ b) with (c :: (s ++ b)). rewrite finditer_cons.
    change (c :: (s ++ b)) with ((c :: s) ++ b).
    rewrite (hit_pattern_ext (c :: s) b g rest Hhit). f_equal.
    apply hit_shorter in Hhit. rewrite !length_app.
    replace (length (c :: s) + length b - (length rest + length b))
      with (length (c :: s) - length rest) by lia.
    rewrite firstn_app.
    replace (length (c :: s) - length rest - length (c :: s)) with 0 by lia.
    cbn [firstn]. now rewrite app_nil_r.
  - intros c s Hhit IH Hend.
    assert (Hsuf : suffix_of s (c :: s)) by (now exists [c]).
    rewrite glue_skip, <- (IH (ends_with_digit_suffix s (c :: s) Hsuf Hend)).
    change ((c :: s) ++ b) with (c :: (s ++ b)). rewrite finditer_cons.
    change (c :: (s ++ b)) with ((c :: s) ++ b).
    now rewrite (hit_pattern_seam (c :: s) b ltac:(discriminate) Hend Hb Hhit).
Qed.

Lemma begins_first b :
  begins_with_timestamp b = true ->
  exists f fs tl0, finditer pattern b = (f :: fs, tl0) /\ before f = [] /\ groups f = [].
Proof.
  unfold begins_with_timestamp. destruct b as [|c s]; [discriminate|].
  rewrite finditer_cons. destruct (hit pattern (c :: s)) as [[g rest]|] eqn:E; [|discriminate].
  intros _. apply (hit_groupless pattern _ _ _ pattern_groupless) in E. subst g.
  destruct (finditer pattern rest) as [fs tl0]. now eexists _, fs, tl0.
Qed.

(** Chunks and dates of two exports put end to end. *)
Lemma pattern_app a b :
  begins_with_timestamp a = true -> begins_with_timestamp b = true ->
  ends_with_digit a = false ->
  tl (re_split pattern (a ++ b)) = tl (re_split pattern a) ++ tl (re_split pattern b)
  /\ re_findall pattern (a ++ b) = re_findall pattern a ++ re_findall pattern b.
Proof.
  intros Ha Hb Hend.
  rewrite !(re_split_groupless pattern _ pattern_groupless),
    !(re_findall_groupless pattern _ pattern_groupless).
  rewrite (finditer_pattern_app b Hb a Hend).
  destruct (begins_first a Ha) as (fa & fsa & tla & -> & Hfa & _).
  destruct (begins_first b Hb) as (fb & fsb & tlb & -> & Hfb & _).
  unfold glue. cbn [fst snd]. rewrite Hfb, app_nil_r, !map_app.
  cbn [map before matched app tl]. split; [|reflexivity].
  now rewrite <- !app_assoc.
Qed.

Lemma combine_app {A B} (a a' : list A) (b b' : list B) :
  length a = length b -> combine (a ++ a') (b ++ b') = combine a b ++ combine a' b'.
Proof.
  revert b. induction a as [|x a IH]; intros [|y b] H; try discriminate; [reflexivity|].
  cbn [app combine]. f_equal. apply IH. now injection H.
Qed.

(** ** [preprocess], unfolded *)

Lemma preprocess_errors data :
  fst (preprocess data)
  = date_errors (combine (tl (re_split pattern data)) (re_findall pattern data)).
Proof. reflexivity. Qed.

Lemma preprocess_ok data :
  re_findall pattern data <> [] ->
  exists df, snd (preprocess data) = Ok df
             /\ rows df = parsed_rows (combine (tl (re_split pattern data))
                                               (re_findall pattern data)).
Proof.
  intros Hne. unfold preprocess. cbn [snd].
  set (chunks := tl (re_split pattern data)). set (dates := re_findall pattern data).
  assert (Hlen : length chunks = length dates)
    by apply split_findall_length, pattern_groupless.
  set (df := combine chunks dates).
  assert (Hd : dtype_of_list (map (fun md => parse_date (snd md)) df) Datetime64 = Datetime64).
  { unfold df. fold dates in Hne. destruct chunks, dates; simpl in *; congruence. }
  rewrite Hd. cbn [dt_accessor bind]. eexists. split; [reflexivity|]. cbn [rows].
  rewrite !combine_map_same, !map_map. cbn [fst snd].
  unfold dropna, parsed_rows. rewrite flat_map_map, map_flat_map. cbn [fst snd].
  apply flat_map_ext. intros [c d]. cbn [fst snd]. now destruct (parse_date d).
Qed.

Lemma begins_has_date data : begins_with_timestamp data = true -> re_findall pattern data <> [].
Proof.
  intros H. destruct (begins_first data H) as (f & fs & tl0 & E & _).
  rewrite (re_findall_groupless pattern _ pattern_groupless), E. discriminate.
Qed.

(* ================================================================== *)
(** * The example of the specification *)

Lemma example_frame : preprocess example_export = ([], Ok (frame_of example_export)).
Proof. vm_compute. reflexivity. Qed.

Lemma example_frame_stats : fetch_stats Overall (frame_of example_export) = Ok (3, 5, 1, 1).
Proof. vm_compute. reflexivity. Qed.

Lemma C1_words_are_not_4 :
  ~ (exists df, snd (preprocess example_export) = Ok df
                /\ length (rows df) = 3
                /\ fetch_stats Overall df = Ok (3, 4, 1, 1)).
Proof.
  intros (df & Hdf & _ & Hstats).
  rewrite example_frame in Hdf. cbn [snd] in Hdf. apply Ok_inj in Hdf. subst df.
  rewrite example_frame_stats in Hstats. apply Ok_inj in Hstats. discriminate.
Qed.

(** C1 (amended): on the three-line example [preprocess] returns three
    records without any diagnostic, and [fetch_stats] with the 'Overall'
    filter returns 3 messages, 5 words (the two tokens of the media marker are
    counted as words), 1 media message and 1 link. *)
Theorem C1_example_stats :
  exists df, preprocess example_export = ([], Ok df)
             /\ length (rows df) = 3
             /\ map user (rows df) = [lit "Alice"; lit "Bob"; lit "Alice"]
             /\ fetch_stats Overall df = Ok (3, 5, 1, 1).
Proof.
  eexists. split; [vm_compute; reflexivity|].
  split; [reflexivity|]. split; vm_compute; reflexivity.
Qed.

(* ================================================================== *)
(** * The hour label *)

Lemma preprocess_rows data df r :
  snd (preprocess data) = Ok df -> In r (rows df) ->
  exists t chunk, r = make_row t (split_user chunk) /\ In chunk (tl (re_split pattern data)).
Proof.
  unfold preprocess. cbn [snd].
  set (df0 := combine (tl (re_split pattern data)) (re_findall pattern data)).
  set (kept := dropna _).
  destruct (dt_accessor _ _) as [stamps|e] eqn:E; [|discriminate].
  cbn [bind]. intros [= <-]. cbn [rows]. intros H.
  apply in_map_iff in H as ([t um] & <- & H). cbn [fst snd].
  apply in_combine_r in H. apply in_map_iff in H as ([chunk t'] & <- & H).
  exists t, chunk. split; [reflexivity|]. cbn [fst].
  unfold kept, dropna in H. apply in_flat_map in H as ([chunk' o] & H & H').
  cbn [fst snd] in H'. destruct o; [|contradiction]. destruct H' as [[= -> ->]|[]].
  apply in_combine_l in H. apply in_map_iff in H as ([c d] & <- & H).
  apply in_combine_l in H. exact H.
Qed.

Lemma C4_midnight_is_not_00_01 :
  exists df r, snd (preprocess (lit "12/08/23, 0:15 - Alice: Hello!")) = Ok df
               /\ In r (rows df) /\ hour r = 0 /\ period r <> lit "00-01".
Proof.
  eexists. eexists. split; [vm_compute; reflexivity|].
  split; [left; reflexivity|]. split; [reflexivity|]. vm_compute. discriminate.
Qed.

(** C4 (amended): for every parsed record the label is "23-00" at hour 23,
    "00-1" at hour 0 (the second number is not padded), and "<h>-<h+1>" in
    decimal for every other hour. *)
Theorem C4_period_label data df r :
  snd (preprocess data) = Ok df -> In r (rows df) ->
  (hour r = 23 -> period r = lit "23-00")
  /\ (hour r = 0 -> period r = lit "00-1")
  /\ (hour r <> 23 -> hour r <> 0 ->
      period r = str_of_nat (hour r) ++ lit "-" ++ str_of_nat (hour r + 1)).
Proof.
  intros Hdf Hr. destruct (preprocess_rows data df r Hdf Hr) as (t & chunk & -> & _).
  cbn [make_row hour period]. unfold period_of. repeat split.
  - intros ->. reflexivity.
  - intros ->. reflexivity.
  - intros H23 H0. apply Nat.eqb_neq in H23, H0. now rewrite H23, H0.
Qed.

Lemma C4_period_label_witness :
  let df := frame_of example_export in
  let r := nth 0 (rows df) (make_row (Build_Timestamp 0 0 0 0 0) ([], [])) in
  snd (preprocess example_export) = Ok df /\ In r (rows df)
  /\ (hour r <> 23 -> hour r <> 0 ->
      period r = str_of_nat (hour r) ++ lit "-" ++ str_of_nat (hour r + 1)).
Proof.
  intros df r.
  assert (Hdf : snd (preprocess example_export) = Ok df) by (vm_compute; reflexivity).
  assert (Hin : In r (rows df)) by (vm_compute; left; reflexivity).
  split; [exact Hdf|]. split; [exact Hin|].
  apply (C4_period_label example_export df r Hdf Hin).
Defined.

(* ================================================================== *)
(** * Media messages *)

Lemma is_media_spec msg : is_media msg = true <-> contains_ci media_marker msg.
Proof.
  unfold is_media, media_pattern, lit_re_i. rewrite re_search_true. split.
  - intros (pre & x & g & rest & -> & Hh). apply hit_some in Hh as [Hm _].
    unfold match_at in Hm. rewrite rm_literal_i in Hm.
    destruct (strip_ci _ x) as [rest'|] eqn:E; [|discriminate].
    injection Hm as _ ->. apply strip_ci_spec in E as (mid & -> & Hmid).
    now exists pre, mid, rest.
  - intros (pre & mid & post & -> & Hmid).
    assert (E : strip_ci (lit "<Media omitted>") (mid ++ post) = Some post)
      by (apply strip_ci_spec; now exists mid).
    exists pre, (mid ++ post), [], post. split; [reflexivity|]. apply hit_some. split.
    + unfold match_at. now rewrite rm_literal_i, E.
    + apply strip_ci_length in E. rewrite E. simpl. lia.
Qed.

Lemma C5_marker_inside_a_text_counts :
  exists df, snd (preprocess (lit "12/08/23, 10:16 - Bob: see <Media omitted> here")) = Ok df
             /\ map message (rows df) = [lit "see <Media omitted> here"]
             /\ lower (lit "see <Media omitted> here") <> lower media_marker
             /\ fetch_stats Overall df = Ok (1, 4, 1, 0)
             /\ text_rows Overall df = Ok [].
Proof.
  eexists. split; [vm_compute; reflexivity|].
  split; [reflexivity|]. split; [vm_compute; discriminate|].
  split; vm_compute; reflexivity.
Qed.

(** C5 (amended): a record is a media message exactly when its text contains
    the marker '<Media omitted>' somewhere, letter case ignored (equality is
    not required); [fetch_stats] counts exactly those records of the selected
    ones, and the word-frequency and word-cloud pipelines leave exactly those
    out (together with the notifications). *)
Theorem C5_media_is_containment selected_user df :
  text_dtype df = Object ->
  (forall msg, is_media msg = true <-> contains_ci media_marker msg)
  /\ (exists n w l,
         fetch_stats selected_user df
         = Ok (n, w, length (filter (fun r => is_media (message r))
                                    (rows (select_user selected_user df))), l))
  /\ text_rows selected_user df
     = Ok (map (fun r => re_sub url_pattern [] (message r))
               (filter (fun r => negb (is_media (message r)))
                       (filter (fun r => negb (str_eqb (user r) group_notification))
                               (rows (select_user selected_user df))))).
Proof.
  intros Hd.
  assert (Hsel : text_dtype (select_user selected_user df) = Object).
  { unfold select_user. now destruct (negb _). }
  assert (Hyes : forall l, filter (fun r => Bool.eqb (is_media (message r)) true) l
                           = filter (fun r => is_media (message r)) l).
  { intros l. apply filter_ext. intros r. now destruct (is_media (message r)). }
  assert (Hno : forall l, filter (fun r => Bool.eqb (is_media (message r)) false) l
                          = filter (fun r => negb (is_media (message r))) l).
  { intros l. apply filter_ext. intros r. now destruct (is_media (message r)). }
  split; [exact is_media_spec|]. split.
  - unfold fetch_stats, media_rows, str_accessor. rewrite Hsel. cbn [bind rows].
    rewrite Hyes. do 3 eexists. reflexivity.
  - unfold text_rows, media_rows, str_accessor. cbn [text_dtype]. rewrite Hsel.
    cbn [bind rows]. now rewrite Hno.
Qed.

Lemma C5_media_is_containment_witness :
  text_dtype (frame_of example_export) = Object
  /\ exists n w l, fetch_stats Overall (frame_of example_export)
                   = Ok (n, w, length (filter (fun r => is_media (message r))
                                              (rows (select_user Overall (frame_of example_export)))), l).
Proof.
  split; [reflexivity|].
  apply (C5_media_is_containment Overall (frame_of example_export)). reflexivity.
Defined.

(* ================================================================== *)
(** * The heat map *)

(** C8: the rows of the heat map are the seven weekdays, Monday first; on the
    example export, whose three messages are all of a Saturday, the cells of
    the other six weekdays are NaN ([None]), not 0: [fillna(0)] runs before
    [reindex] adds the rows of the weekdays without messages. *)
Theorem C8_heatmap_absent_weekday_is_nan :
  (forall selected_user df, map fst (index (activity_heatmap selected_user df)) = day_order)
  /\ activity_heatmap Overall (frame_of example_export)
     = {| columns := [lit "10-11"];
          index := [ (lit "Monday", [None]); (lit "Tuesday", [None]); (lit "Wednesday", [None]);
                     (lit "Thursday", [None]); (lit "Friday", [None]);
                     (lit "Saturday", [Some 3]); (lit "Sunday", [None]) ] |}.
Proof.
  split; [|vm_compute; reflexivity].
  intros su df. unfold activity_heatmap, reindex_rows. cbn [index].
  rewrite map_map. cbn [fst]. apply map_id.
Qed.

(* ================================================================== *)
(** * The 'Overall' sentinel *)

(** C10: the filter value is compared with the string 'Overall' character by
    character; with that value nothing is filtered, with any other value the
    rows of that author are kept, and every aggregator sees the filter only
    through this selection.  So in a chat with a participant called Overall,
    filtering by that name gives the statistics of the whole chat, not those
    of the participant's own records. *)
Theorem C10_overall_means_no_filter :
  (forall a b, str_eqb a b = true <-> a = b)
  /\ (forall su df, select_user su df = if str_eqb su Overall then df else rows_of_user su df)
  /\ (forall generate stop_file EMOJI_DATA su df,
         fetch_stats su df = fetch_stats Overall (select_user su df)
         /\ create_wordcloud generate stop_file su df
            = create_wordcloud generate stop_file Overall (select_user su df)
         /\ most_common_words stop_file su df = most_common_words stop_file Overall (select_user su df)
         /\ emoji_helper EMOJI_DATA su df = emoji_helper EMOJI_DATA Overall (select_user su df)
         /\ monthly_timeline su df = monthly_timeline Overall (select_user su df)
         /\ daily_timeline su df = daily_timeline Overall (select_user su df)
         /\ week_activity_map su df = week_activity_map Overall (select_user su df)
         /\ month_activity_map su df = month_activity_map Overall (select_user su df)
         /\ activity_heatmap su df = activity_heatmap Overall (select_user su df))
  /\ (map user (rows (frame_of overall_chat)) = [Overall; lit "Bob"]
      /\ fetch_stats Overall (frame_of overall_chat) = Ok (2, 2, 0, 0)
      /\ fetch_stats Overall (rows_of_user Overall (frame_of overall_chat)) = Ok (1, 1, 0, 0)).
Proof.
  split; [exact str_eqb_eq|]. split; [exact select_user_cases|]. split.
  - intros generate stop_file EMOJI_DATA su df.
    unfold fetch_stats, create_wordcloud, most_common_words, text_rows, emoji_helper,
      monthly_timeline, daily_timeline, week_activity_map, month_activity_map, activity_heatmap.
    rewrite !select_user_Overall. repeat split; reflexivity.
  - split; [vm_compute; reflexivity|]. split; vm_compute; reflexivity.
Qed.

(* ================================================================== *)
(** * An unreadable stop-word list *)

Lemma C7_word_frequency_returns_nothing :
  most_common_words None Overall (frame_of example_export) = []
  /\ most_common_words (Some []) Overall (frame_of example_export)
     = [(lit "hello", 1); (lit "check", 1)].
Proof. split; vm_compute; reflexivity. Qed.

(** C7 (amended): when the stop-word list cannot be read, neither operation
    raises.  [most_common_words] returns an empty table.  [create_wordcloud]
    draws the cloud from the filtered, link-free messages exactly as they are
    (no stop-word removal, no lower-casing, no punctuation removal), joined by
    spaces, and falls back to the text 'Error' when that cannot be drawn. *)
Theorem C7_unreadable_stop_words generate selected_user df :
  most_common_words None selected_user df = []
  /\ create_wordcloud generate None selected_user df
     = match (msgs <- text_rows selected_user df ;; generate (cloud_text msgs)) with
       | Ok wc => Ok wc
       | Raise _ => generate (lit "Error")
       end
  /\ ((exists wc, generate (lit "Error") = Ok wc) ->
      exists wc, create_wordcloud generate None selected_user df = Ok wc).
Proof.
  assert (Hid : forall msgs, map (remove_stop_words None) msgs = msgs) by (intros; apply map_id).
  split; [|split].
  - unfold most_common_words. now destruct (text_rows selected_user df).
  - unfold create_wordcloud, cloud_text. destruct (text_rows selected_user df); cbn [bind];
      [now rewrite Hid|reflexivity].
  - intros [wc Hwc]. unfold create_wordcloud.
    destruct (_ <- text_rows selected_user df ;; _) as [wc'|e]; eauto.
Qed.

Lemma C7_unreadable_stop_words_witness :
  (exists wc, (fun text => Ok (Cloud text)) (lit "Error") = Ok wc)
  /\ exists wc, create_wordcloud (fun text => Ok (Cloud text)) None Overall
                                 (frame_of example_export) = Ok wc.
Proof.
  assert (H : exists wc, (fun text => Ok (Cloud text)) (lit "Error") = Ok wc) by (eexists; reflexivity).
  split; [exact H|].
  apply (C7_unreadable_stop_words (fun text => Ok (Cloud text)) Overall (frame_of example_export)).
  exact H.
Defined.

(* ================================================================== *)
(** * Empty input and empty selections *)

(** A frame [preprocess] returns without any record has text columns
    assigned from empty lists: they are [float64] columns. *)
Lemma preprocess_no_record_dtype data df :
  snd (preprocess data) = Ok df -> rows df = [] -> text_dtype df = Float64.
Proof.
  unfold preprocess. cbn [snd].
  set (df0 := combine (tl (re_split pattern data)) (re_findall pattern data)).
  set (kept := dropna _).
  destruct (dt_accessor _ (map snd kept)) as [stamps|e] eqn:E; cbn [bind]; [|discriminate].
  intros H. apply Ok_inj in H. subst df. cbn [rows text_dtype]. intros Hrows.
  assert (Hs : stamps = map snd kept).
  { unfold dt_accessor in E. destruct (dtype_of_list _ _); congruence. }
  subst stamps. destruct kept as [|k kept]; [reflexivity|discriminate Hrows].
Qed.

(** On a selection without rows the aggregators that read no text column
    return their empty forms. *)
Lemma empty_selection_tables EMOJI_DATA selected_user df :
  rows (select_user selected_user df) = [] ->
  most_busy_users (select_user selected_user df) = ([], [])
  /\ emoji_helper EMOJI_DATA selected_user df = []
  /\ monthly_timeline selected_user df = []
  /\ daily_timeline selected_user df = []
  /\ week_activity_map selected_user df = map (fun d => (d, None)) day_order
  /\ month_activity_map selected_user df = map (fun d => (d, None)) month_order.
Proof.
  intros Hrows.
  unfold most_busy_users, emoji_helper, monthly_timeline, daily_timeline, week_activity_map,
    month_activity_map.
  rewrite Hrows. cbn [map rows].
  split; [reflexivity|]. split; [reflexivity|]. split; [reflexivity|].
  split; [reflexivity|]. split; reflexivity.
Qed.

(** C6 (code bug): the claim is that empty input gives an empty record
    sequence and that every aggregator returns its empty form on an empty
    record set, none raising.  The code raises in both places.  For the empty
    text [preprocess] raises [AttributeError] (the [.dt] accessor is applied
    to the date column built from an empty list, which is no datetime
    column), with no diagnostic.  And when [preprocess] does return a frame
    without records (a text whose dates all fail to parse), every filter
    selects nothing and [fetch_stats] raises [AttributeError] on it, for the
    text columns assigned from empty lists are no string columns and
    [.str.contains] refuses them; for the same reason [create_wordcloud]
    draws the text 'Error' instead of its placeholder, and
    [most_common_words] returns its empty table through its handler. *)
Theorem C6_empty_record_set_raises generate stop_file data df selected_user :
  snd (preprocess data) = Ok df -> rows df = [] ->
  preprocess [] = ([], Raise AttributeError)
  /\ rows (select_user selected_user df) = []
  /\ fetch_stats selected_user df = Raise AttributeError
  /\ create_wordcloud generate stop_file selected_user df = generate (lit "Error")
  /\ most_common_words stop_file selected_user df = [].
Proof.
  intros Hdf Hrows. pose proof (preprocess_no_record_dtype data df Hdf Hrows) as Hd.
  assert (Hsel : text_dtype (select_user selected_user df) = Float64)
    by (rewrite select_user_dtype; exact Hd).
  split; [reflexivity|].
  split.
  { unfold select_user. destruct (negb _); [|exact Hrows]. cbn [rows]. now rewrite Hrows. }
  unfold fetch_stats, create_wordcloud, most_common_words, text_rows, media_rows, str_accessor.
  cbn [text_dtype rows]. rewrite Hsel. cbn [bind].
  split; [reflexivity|]. split; reflexivity.
Qed.

Lemma C6_empty_record_set_raises_witness :
  snd (preprocess (lit "31/02/23, 10:15 - A: x")) = Ok (empty_frame Float64)
  /\ rows (empty_frame Float64) = []
  /\ fetch_stats Overall (empty_frame Float64) = Raise AttributeError.
Proof.
  assert (H1 : snd (preprocess (lit "31/02/23, 10:15 - A: x")) = Ok (empty_frame Float64))
    by (vm_compute; reflexivity).
  assert (H2 : rows (empty_frame Float64) = []) by reflexivity.
  split; [exact H1|]. split; [exact H2|].
  apply (C6_empty_record_set_raises (fun text => Ok (Cloud text)) None
                                    (lit "31/02/23, 10:15 - A: x") (empty_frame Float64)
                                    Overall H1 H2).
Defined.

(* ================================================================== *)
(** * The chain of date formats *)

Lemma chunks_and_dates data :
  length (tl (re_split pattern data)) = length (re_findall pattern data).
Proof. apply split_findall_length, pattern_groupless. Qed.

(** C3: a date is parsed with the 2-digit-year 12-hour format, then the
    2-digit-year 24-hour, the 4-digit-year 12-hour and the 4-digit-year 24-hour
    formats, and the first success is kept.  [preprocess] shows one diagnostic
    for each date that no format parses, and when the text has a timestamp it
    returns (without raising) exactly the records of the chunks whose date
    parses, in order: a chunk whose date fails is dropped. *)
Theorem C3_format_chain data :
  let dates := re_findall pattern data in
  let chunks := tl (re_split pattern data) in
  length chunks = length dates
  /\ (forall d, parse_date d
                = match to_datetime fmt_y_12 d with
                  | Some t => Some t
                  | None =>
                      match to_datetime fmt_y_24 d with
                      | Some t => Some t
                      | None =>
                          match to_datetime fmt_Y_12 d with
                          | Some t => Some t
                          | None => to_datetime fmt_Y_24 d
                          end
                      end
                  end)
  /\ fst (preprocess data) = map date_error (filter failed dates)
  /\ (dates <> [] ->
      exists df, snd (preprocess data) = Ok df
                 /\ map (fun r => (date r, (user r, message r))) (rows df)
                    = flat_map (fun cd => match parse_date (snd cd) with
                                          | Some t => [(t, split_user (fst cd))]
                                          | None => []
                                          end) (combine chunks dates)).
Proof.
  intros dates chunks.
  assert (Hlen : length chunks = length dates) by apply chunks_and_dates.
  split; [exact Hlen|]. split.
  { intros d. unfold parse_date, formats, first_parse.
    now destruct (to_datetime fmt_y_12 d), (to_datetime fmt_y_24 d), (to_datetime fmt_Y_12 d),
      (to_datetime fmt_Y_24 d). }
  unfold preprocess. fold dates. fold chunks. cbn [fst snd].
  set (df := combine chunks dates). split.
  - rewrite <- (map_snd_combine chunks dates Hlen). fold df.
    rewrite <- flat_map_filter_map, flat_map_map.
    apply flat_map_ext. intros [c d]. unfold failed. cbn [snd]. now destruct (parse_date d).
  - intros Hne.
    assert (Hdf : df <> []).
    { unfold df. destruct chunks, dates; simpl in *; congruence. }
    destruct df as [|md df'] eqn:Edf; [congruence|]. rewrite <- Edf. clear Hdf.
    assert (Hd : dtype_of_list (map (fun md => parse_date (snd md)) df) Datetime64 = Datetime64)
      by (rewrite Edf; reflexivity).
    rewrite Hd. cbn [dt_accessor bind]. eexists. split; [reflexivity|]. cbn [rows].
    rewrite !combine_map_same, !map_map.
    cbn [fst snd make_row date user message].
    unfold dropna. rewrite flat_map_map, map_flat_map. cbn [fst snd].
    apply flat_map_ext. intros [c d]. cbn [fst snd]. destruct (parse_date d); [|reflexivity].
    cbn [map fst snd]. now destruct (split_user c).
Qed.

Lemma C3_format_chain_witness :
  re_findall pattern example_export <> []
  /\ exists df, snd (preprocess example_export) = Ok df
                /\ map (fun r => (date r, (user r, message r))) (rows df)
                   = flat_map (fun cd => match parse_date (snd cd) with
                                         | Some t => [(t, split_user (fst cd))]
                                         | None => []
                                         end)
                              (combine (tl (re_split pattern example_export))
                                       (re_findall pattern example_export)).
Proof.
  assert (H : re_findall pattern example_export <> []) by (vm_compute; discriminate).
  split; [exact H|]. apply (C3_format_chain example_export). exact H.
Defined.

(* ================================================================== *)
(** * Author and text of a chunk *)



Lemma split_user_cases chunk :
  split_user chunk =
    match name_boundary chunk with
    | Some (name, rest) => (name, join (lit " ") (re_split user_pattern rest))
    | None => (group_notification, chunk)
    end.
Proof.
  unfold split_user. rewrite re_split_user_pattern.
  destruct (name_boundary chunk) as [[name rest]|]; reflexivity.
Qed.




(* ================================================================== *)
(** * Two exports put end to end *)

Lemma export_frames :
  snd (preprocess export_a) = Ok (frame_of export_a)
  /\ snd (preprocess export_b) = Ok (frame_of export_b)
  /\ snd (preprocess (export_a ++ export_b)) = Ok (frame_of (export_a ++ export_b)).
Proof.
  split; [vm_compute; reflexivity|]. split; vm_compute; reflexivity.
Qed.

Lemma export_messages :
  map message (rows (frame_of (export_a ++ export_b))) = [lit "hi "; lit "yo"]
  /\ map message (rows (frame_of export_a) ++ rows (frame_of export_b))
     = [lit "hi 1"; lit "yo"]
  /\ map day (rows (frame_of (export_a ++ export_b))) = [1; 12]
  /\ map day (rows (frame_of export_a) ++ rows (frame_of export_b)) = [1; 2].
Proof.
  split; [vm_compute; reflexivity|]. split; [vm_compute; reflexivity|].
  split; vm_compute; reflexivity.
Qed.

Lemma C9_digit_before_the_seam :
  begins_with_timestamp export_a = true
  /\ begins_with_timestamp export_b = true
  /\ snd (preprocess export_a) = Ok (frame_of export_a)
  /\ snd (preprocess export_b) = Ok (frame_of export_b)
  /\ snd (preprocess (export_a ++ export_b)) = Ok (frame_of (export_a ++ export_b))
  /\ rows (frame_of (export_a ++ export_b))
     <> rows (frame_of export_a) ++ rows (frame_of export_b).
Proof.
  destruct export_frames as (Ha & Hb & Hab). destruct export_messages as (H1 & H2 & _).
  split; [vm_compute; reflexivity|]. split; [vm_compute; reflexivity|].
  split; [exact Ha|]. split; [exact Hb|]. split; [exact Hab|].
  intros H. rewrite <- H, H1 in H2. clear -H2.
  apply (f_equal (fun l => length (nth 0 l []))) in H2.
  vm_compute in H2. discriminate H2.
Qed.

(** C9 (amended): for any two exports that each begin with a timestamp
    match, the first of which does not end with a decimal digit, parsing
    their concatenation yields exactly the records of the first followed by
    the records of the second (and the diagnostics of the first followed by
    those of the second). *)
Theorem C9_concatenation a b :
  begins_with_timestamp a = true -> begins_with_timestamp b = true ->
  ends_with_digit a = false ->
  exists dfa dfb dfab,
    snd (preprocess a) = Ok dfa
    /\ snd (preprocess b) = Ok dfb
    /\ snd (preprocess (a ++ b)) = Ok dfab
    /\ rows dfab = rows dfa ++ rows dfb
    /\ fst (preprocess (a ++ b)) = fst (preprocess a) ++ fst (preprocess b).
Proof.
  intros Ha Hb Hend.
  destruct (pattern_app a b Ha Hb Hend) as [Hchunks Hdates].
  pose proof (begins_has_date a Ha) as Hna.
  destruct (preprocess_ok a Hna) as (dfa & Hdfa & Hra).
  destruct (preprocess_ok b (begins_has_date b Hb)) as (dfb & Hdfb & Hrb).
  assert (Hnab : re_findall pattern (a ++ b) <> []).
  { rewrite Hdates. destruct (re_findall pattern a); [congruence|discriminate]. }
  destruct (preprocess_ok (a ++ b) Hnab) as (dfab & Hdfab & Hrab).
  assert (Hcomb : combine (tl (re_split pattern (a ++ b))) (re_findall pattern (a ++ b))
                  = combine (tl (re_split pattern a)) (re_findall pattern a)
                    ++ combine (tl (re_split pattern b)) (re_findall pattern b)).
  { rewrite Hchunks, Hdates. apply combine_app, split_findall_length, pattern_groupless. }
  exists dfa, dfb, dfab. split; [exact Hdfa|]. split; [exact Hdfb|]. split; [exact Hdfab|].
  split.
  - rewrite Hrab, Hra, Hrb, Hcomb. unfold parsed_rows. apply flat_map_app.
  - rewrite !preprocess_errors, Hcomb. unfold date_errors. apply flat_map_app.
Qed.

Lemma C9_concatenation_witness :
  begins_with_timestamp example_export = true
  /\ begins_with_timestamp export_b = true
  /\ ends_with_digit example_export = false
  /\ exists dfa dfb dfab,
      snd (preprocess example_export) = Ok dfa
      /\ snd (preprocess export_b) = Ok dfb
      /\ snd (preprocess (example_export ++ export_b)) = Ok dfab
      /\ rows dfab = rows dfa ++ rows dfb
      /\ fst (preprocess (example_export ++ export_b))
         = fst (preprocess example_export) ++ fst (preprocess export_b).
Proof.
  assert (H1 : begins_with_timestamp example_export = true) by (vm_compute; reflexivity).
  assert (H2 : begins_with_timestamp export_b = true) by (vm_compute; reflexivity).
  assert (H3 : ends_with_digit example_export = false) by (vm_compute; reflexivity).
  split; [exact H1|]. split; [exact H2|]. split; [exact H3|].
  exact (C9_concatenation example_export export_b H1 H2 H3).
Defined.

(* ================================================================== *)
(** * Counting and sorting: what [Counter], [most_common], [value_counts]
      and [groupby(...).count()] return *)

Section CounterFacts.
Context {K : Type} (eqb : K -> K -> bool).
Hypothesis eqb_eq : forall a b, eqb a b = true <-> a = b.

Lemma eqb_same a : eqb a a = true.
Proof. now apply eqb_eq. Qed.

Lemma count_of_bump k k' c :
  count_of eqb k' (bump eqb k c) = count_of eqb k' c + (if eqb k k' then 1 else 0).
Proof.
  unfold count_of. induction c as [|[k0 n] c IH]; cbn [bump find fst snd].
  - destruct (eqb k k'); reflexivity.
  - destruct (eqb k0 k) eqn:E0; cbn [find fst snd].
    + apply eqb_eq in E0. subst k0. destruct (eqb k k'); cbn [snd]; lia.
    + destruct (eqb k0 k') eqn:E1; cbn [snd]; [|exact IH].
      apply eqb_eq in E1. subst k0. destruct (eqb k k') eqn:E2; [|lia].
      apply eqb_eq in E2. subst k'. rewrite eqb_same in E0. discriminate.
Qed.

Lemma count_of_fold k xs : forall c,
  count_of eqb k (fold_left (fun c x => bump eqb x c) xs c) = count_of eqb k c + occ eqb k xs.
Proof.
  unfold occ. induction xs as [|x xs IH]; intros c; cbn [fold_left filter length]; [lia|].
  rewrite IH, count_of_bump. destruct (eqb x k); cbn [length]; lia.
Qed.

(** The count of a value is its number of occurrences. *)
Lemma count_of_Counter k xs : count_of eqb k (Counter eqb xs) = occ eqb k xs.
Proof. unfold Counter. now rewrite count_of_fold. Qed.

Lemma bump_keys k c :
  map fst (bump eqb k c)
  = if existsb (fun k' => eqb k' k) (map fst c) then map fst c else map fst c ++ [k].
Proof.
  induction c as [|[k0 n] c IH]; cbn [bump map fst existsb]; [reflexivity|].
  destruct (eqb k0 k); cbn [orb map fst]; [reflexivity|].
  rewrite IH. now destruct (existsb _ (map fst c)).
Qed.

Lemma bump_NoDup k c : NoDup (map fst c) -> NoDup (map fst (bump eqb k c)).
Proof.
  intros H. rewrite bump_keys. destruct (existsb _ (map fst c)) eqn:E; [exact H|].
  apply NoDup_app; [exact H|repeat constructor; intros []|].
  intros x Hx [Hk|[]]. subst x.
  assert (existsb (fun k' => eqb k' k) (map fst c) = true); [|congruence].
  apply existsb_exists. exists k. split; [exact Hx|apply eqb_same].
Qed.

Lemma bump_positive k c :
  Forall (fun kv => 1 <= snd kv) c -> Forall (fun kv => 1 <= snd kv) (bump eqb k c).
Proof.
  induction 1 as [|[k0 n] c H0 H IH]; cbn [bump]; [repeat constructor|].
  destruct (eqb k0 k); constructor; cbn [snd] in *; auto.
Qed.

Lemma bump_sum k c : list_sum (map snd (bump eqb k c)) = S (list_sum (map snd c)).
Proof.
  unfold list_sum. induction c as [|[k0 n] c IH]; cbn [bump map snd fold_right]; [reflexivity|].
  destruct (eqb k0 k); cbn [map snd list_sum fold_right] in *; lia.
Qed.

Lemma Counter_invariant xs :
  NoDup (map fst (Counter eqb xs))
  /\ Forall (fun kv => 1 <= snd kv) (Counter eqb xs)
  /\ list_sum (map snd (Counter eqb xs)) = length xs.
Proof.
  unfold Counter.
  assert (H : forall c, NoDup (map fst c) -> Forall (fun kv => 1 <= snd kv) c ->
                        let c' := fold_left (fun c x => bump eqb x c) xs c in
                        NoDup (map fst c') /\ Forall (fun kv => 1 <= snd kv) c'
                        /\ list_sum (map snd c') = list_sum (map snd c) + length xs).
  { induction xs as [|x xs IH]; intros c Hn Hp; cbn [fold_left length].
    - repeat split; auto.
    - destruct (IH (bump eqb x c) (bump_NoDup x c Hn) (bump_positive x c Hp)) as (H1 & H2 & H3).
      repeat split; auto. rewrite H3, bump_sum. lia. }
  destruct (H [] (NoDup_nil _) (Forall_nil _)) as (H1 & H2 & H3). auto.
Qed.

(** In a table with distinct keys the count of a key is that of its entry. *)
Lemma count_of_entry c k n : NoDup (map fst c) -> In (k, n) c -> count_of eqb k c = n.
Proof.
  unfold count_of. induction c as [|[k0 n0] c IH]; intros Hn Hin; [contradiction|].
  cbn [map fst] in Hn. inversion Hn as [|? ? Hk0 Hn']; subst. cbn [find fst].
  destruct Hin as [[= -> ->]|Hin].
  - now rewrite eqb_same.
  - destruct (eqb k0 k) eqn:E; [|auto]. apply eqb_eq in E. subst k0.
    exfalso. apply Hk0. apply in_map_iff. now exists (k, n).
Qed.

Lemma count_of_absent c k : ~ In k (map fst c) -> count_of eqb k c = 0.
Proof.
  unfold count_of. induction c as [|[k0 n0] c IH]; intros H; [reflexivity|].
  cbn [find fst map] in *. destruct (eqb k0 k) eqn:E.
  - apply eqb_eq in E. subst k0. exfalso. apply H. now left.
  - apply IH. intros Hin. apply H. now right.
Qed.

Lemma count_of_key c k : Forall (fun kv => 1 <= snd kv) c ->
                         (In k (map fst c) <-> 1 <= count_of eqb k c).
Proof.
  intros Hp. unfold count_of. induction Hp as [|[k0 n0] c H0 Hp IH]; cbn [find map fst].
  - split; [contradiction|cbn; lia].
  - destruct (eqb k0 k) eqn:E.
    + apply eqb_eq in E. subst k0. cbn [snd] in *. split; [intros _; exact H0|now left].
    + rewrite <- IH. split; [intros [->|H]; [rewrite eqb_same in E; discriminate|exact H]|].
      intros H. now right.
Qed.

(** The count of a key does not depend on the order of the table. *)
Lemma count_of_perm c c' k :
  NoDup (map fst c) -> Permutation c c' -> count_of eqb k c' = count_of eqb k c.
Proof.
  intros Hn Hp.
  assert (Hn' : NoDup (map fst c')) by (eapply Permutation_NoDup; [apply Permutation_map|]; eauto).
  destruct (in_dec (fun a b => match eqb a b as x return eqb a b = x -> {a = b} + {a <> b} with
                               | true => fun E => left (proj1 (eqb_eq a b) E)
                               | false => fun E => right (fun H =>
                                   eq_ind true (fun x => if x then True else False) I false
                                          (eq_trans (eq_sym (proj2 (eqb_eq a b) H)) E))
                               end eq_refl) k (map fst c)) as [Hin|Hout].
  - apply in_map_iff in Hin as ([k0 n] & <- & Hin). cbn [fst].
    rewrite (count_of_entry c k0 n Hn Hin).
    apply count_of_entry; [exact Hn'|]. eapply Permutation_in; eauto.
  - rewrite (count_of_absent c k Hout). apply count_of_absent.
    intros H. apply Hout. eapply Permutation_in; [apply Permutation_map; symmetry|]; eauto.
Qed.

Lemma occ_in k xs : In k xs <-> 1 <= occ eqb k xs.
Proof.
  unfold occ. induction xs as [|x xs IH]; cbn [filter length In]; [split; [contradiction|lia]|].
  destruct (eqb x k) eqn:E; cbn [length].
  - apply eqb_eq in E. split; [lia|now left].
  - rewrite <- IH. split; [intros [->|H]; [rewrite eqb_same in E; discriminate|exact H]|].
    intros H. now right.
Qed.

End CounterFacts.

Section SortFacts.
Context {A : Type} (leb : A -> A -> bool).

Lemma insert_sorted_perm x l : Permutation (insert_sorted leb x l) (x :: l).
Proof.
  induction l as [|y l IH]; cbn [insert_sorted]; [reflexivity|].
  destruct (leb x y); [reflexivity|]. rewrite IH. apply perm_swap.
Qed.

Lemma sort_by_perm l : Permutation (sort_by leb l) l.
Proof.
  induction l as [|x l IH]; cbn [sort_by fold_right]; [reflexivity|].
  fold (sort_by leb l). now rewrite insert_sorted_perm, IH.
Qed.

Hypothesis leb_total : forall a b, leb a b = true \/ leb b a = true.

Lemma insert_sorted_sorted x l :
  Sorted (fun a b => leb a b = true) l -> Sorted (fun a b => leb a b = true) (insert_sorted leb x l).
Proof.
  induction 1 as [|y l Hs IH Hd]; cbn [insert_sorted]; [repeat constructor|].
  destruct (leb x y) eqn:E.
  - repeat constructor; auto.
  - constructor; [exact IH|].
    destruct l as [|z l]; cbn [insert_sorted].
    + constructor. destruct (leb_total x y); congruence.
    + destruct (leb x z); constructor.
      * destruct (leb_total x y); congruence.
      * now inversion Hd.
Qed.

Lemma sort_by_sorted l : Sorted (fun a b => leb a b = true) (sort_by leb l).
Proof.
  induction l as [|x l IH]; cbn [sort_by fold_right]; [constructor|].
  now apply insert_sorted_sorted.
Qed.

End SortFacts.

Lemma StronglySorted_firstn {A} (R : A -> A -> Prop) n l :
  StronglySorted R l -> StronglySorted R (firstn n l).
Proof.
  revert n. induction l as [|x l IH]; intros [|n] H; cbn [firstn]; try constructor.
  - apply IH. now inversion H.
  - inversion H as [|? ? _ Hf]; subst. rewrite Forall_forall in *.
    intros y Hy. apply Hf. rewrite <- (firstn_skipn n l). apply in_or_app. now left.
Qed.

Lemma StronglySorted_impl {A} (R R' : A -> A -> Prop) l :
  (forall a b, R a b -> R' a b) -> StronglySorted R l -> StronglySorted R' l.
Proof.
  intros H. induction 1 as [|x l Hs IH Hf]; constructor; [exact IH|].
  eapply Forall_impl; [|exact Hf]. auto.
Qed.

Lemma StronglySorted_map {A B} (f : A -> B) (R : B -> B -> Prop) l :
  StronglySorted (fun a b => R (f a) (f b)) l -> StronglySorted R (map f l).
Proof.
  induction 1 as [|x l Hs IH Hf]; cbn [map]; constructor; [exact IH|].
  rewrite Forall_forall in *. intros y Hy. apply in_map_iff in Hy as (z & <- & Hz). auto.
Qed.

Lemma by_count_desc_sorted {K} (c : list (K * nat)) : StronglySorted count_desc (by_count_desc c).
Proof.
  unfold by_count_desc.
  apply (StronglySorted_impl (fun a b => (snd b <=? snd a) = true)).
  - intros a b H. now apply Nat.leb_le in H.
  - apply Sorted_StronglySorted.
    + intros a b c0 H1 H2. apply Nat.leb_le in H1, H2. apply Nat.leb_le. lia.
    + apply sort_by_sorted. intros a b.
      destruct (Nat.le_ge_cases (snd b) (snd a)); [left|right]; now apply Nat.leb_le.
Qed.

Lemma by_count_desc_perm {K} (c : list (K * nat)) : Permutation (by_count_desc c) c.
Proof. apply sort_by_perm. Qed.

Section MostCommon.
Context {K : Type} (eqb : K -> K -> bool).
Hypothesis eqb_eq : forall a b, eqb a b = true <-> a = b.

(** [Counter(xs).most_common()]: one entry for each distinct element, with
    its number of occurrences, the larger counts first. *)
Lemma most_common_spec xs :
  let t := by_count_desc (Counter eqb xs) in
  NoDup (map fst t)
  /\ (forall k n, In (k, n) t <-> n = occ eqb k xs /\ 1 <= n)
  /\ (forall k, count_of eqb k t = occ eqb k xs)
  /\ list_sum (map snd t) = length xs
  /\ StronglySorted count_desc t.
Proof.
  intros t. destruct (Counter_invariant eqb eqb_eq xs) as (Hn & Hp & Hs).
  pose proof (by_count_desc_perm (Counter eqb xs)) as Hperm. fold t in Hperm.
  assert (Hn' : NoDup (map fst t)).
  { eapply Permutation_NoDup; [apply Permutation_map; symmetry; exact Hperm|exact Hn]. }
  assert (Hp' : Forall (fun kv => 1 <= snd kv) t).
  { eapply Permutation_Forall; [symmetry; exact Hperm|exact Hp]. }
  assert (Hc : forall k, count_of eqb k t = occ eqb k xs).
  { intros k. rewrite (count_of_perm eqb eqb_eq (Counter eqb xs) t k Hn (Permutation_sym Hperm)).
    apply count_of_Counter; exact eqb_eq. }
  split; [exact Hn'|]. split; [|split; [exact Hc|split]].
  - intros k n. split.
    + intros Hin. rewrite <- Hc, (count_of_entry eqb eqb_eq t k n Hn' Hin). split; [reflexivity|].
      rewrite Forall_forall in Hp'. exact (Hp' _ Hin).
    + intros [-> H1]. rewrite <- Hc in H1 |- *.
      apply (count_of_key eqb eqb_eq t k Hp') in H1.
      apply in_map_iff in H1 as ([k0 n0] & <- & Hin). cbn [fst].
      now rewrite (count_of_entry eqb eqb_eq t k0 n0 Hn' Hin).
  - rewrite <- Hs. apply Permutation_list_sum || (unfold list_sum; idtac).
    now apply Permutation_map.
  - apply by_count_desc_sorted.
Qed.

(** [series.reindex] / a lookup in such a table: NaN exactly for the values
    that do not occur. *)
Lemma find_count xs k :
  option_map snd (find (fun kv => eqb (fst kv) k) (by_count_desc (Counter eqb xs)))
  = positive (occ eqb k xs).
Proof.
  destruct (most_common_spec xs) as (_ & Hin & Hc & _).
  rewrite <- Hc. unfold count_of.
  destruct (find _ _) as [[k0 n]|] eqn:E; [|reflexivity].
  apply find_some in E as [E _]. apply Hin in E as [_ E]. cbn [option_map snd].
  now destruct n; [lia|].
Qed.

End MostCommon.

Lemma occ_map {A K} (eqb : K -> K -> bool) (f : A -> K) k l :
  occ eqb k (map f l) = length (filter (fun x => eqb (f x) k) l).
Proof.
  unfold occ. induction l as [|x l IH]; [reflexivity|]. cbn [map filter].
  destruct (eqb (f x) k); cbn [length]; now rewrite IH.
Qed.

(* ================================================================== *)
(** * [most_busy_users] *)

(** The table of [most_busy_users] has one row for each author, with the
    number of that author's records out of the number of all records; the
    rows come with the larger counts first, the counts add up to the number
    of records, and the first result is the first five rows. *)
Theorem most_busy_users_counts df :
  let users := map user (rows df) in
  let pct := snd (most_busy_users df) in
  NoDup (map fst pct)
  /\ (forall u p, In (u, p) pct ->
                  pc_count p = occ str_eqb u users /\ 1 <= pc_count p
                  /\ pc_total p = length (rows df))
  /\ (forall u, In u users -> In u (map fst pct))
  /\ list_sum (map (fun up => pc_count (snd up)) pct) = length (rows df)
  /\ StronglySorted (fun a b => pc_count (snd b) <= pc_count (snd a)) pct
  /\ fst (most_busy_users df) = firstn 5 (map (fun up => (fst up, pc_count (snd up))) pct).
Proof.
  intros users pct. unfold most_busy_users in pct. cbn [snd] in pct.
  destruct (most_common_spec str_eqb str_eqb_eq users) as (Hn & Hin & Hc & Hs & Hsort).
  fold (value_counts users) in Hn, Hin, Hc, Hs, Hsort.
  set (counts := value_counts users) in *.
  assert (Hkeys : map fst pct = map fst counts).
  { unfold pct. rewrite map_map. apply map_ext. reflexivity. }
  assert (Hcounts : map (fun up => (fst up, pc_count (snd up))) pct = counts).
  { unfold pct. rewrite map_map. transitivity (map (fun kv => kv) counts); [|apply map_id].
    apply map_ext. now intros [u n]. }
  split; [now rewrite Hkeys|]. split; [|split; [|split; [|split]]].
  - intros u p H. unfold pct in H. apply in_map_iff in H as ([u0 n] & [= <- <-] & H).
    cbn [pc_count pc_total fst snd]. apply Hin in H. tauto.
  - intros u Hu. rewrite Hkeys.
    apply (occ_in str_eqb str_eqb_eq) in Hu.
    assert (H : In (u, occ str_eqb u users) counts) by (apply Hin; auto).
    apply in_map_iff. now exists (u, occ str_eqb u users).
  - transitivity (list_sum (map snd counts)).
    + f_equal. unfold pct. rewrite map_map. apply map_ext. reflexivity.
    + rewrite Hs. unfold users. apply length_map.
  - unfold pct. apply StronglySorted_map. exact Hsort.
  - unfold most_busy_users. cbn [fst]. now rewrite Hcounts.
Qed.

(* ================================================================== *)
(** * [week_activity_map] and [month_activity_map] *)

(** The activity maps list the seven weekdays from Monday and the twelve
    months from January; each comes with the number of selected records of
    that weekday or month, and with NaN ([None]) when there is none. *)
Theorem activity_map_counts selected_user df :
  let sel := rows (select_user selected_user df) in
  week_activity_map selected_user df
  = map (fun d => (d, positive (length (rows_on d sel)))) day_order
  /\ month_activity_map selected_user df
     = map (fun m => (m, positive (length (filter (fun r => str_eqb (month r) m) sel))))
           month_order.
Proof.
  intros sel. unfold week_activity_map, month_activity_map, reindex, value_counts. fold sel.
  split; apply map_ext; intros k; f_equal;
    rewrite (find_count str_eqb str_eqb_eq); now rewrite occ_map.
Qed.

(* ================================================================== *)
(** * [emoji_helper] *)

Lemma flat_map_filter {A B} (p : B -> bool) (f : A -> list B) (l : list A) :
  flat_map (fun x => filter p (f x)) l = filter p (flat_map f l).
Proof.
  induction l as [|x l IH]; [reflexivity|]. cbn [flat_map]. now rewrite filter_app, IH.
Qed.

Lemma occ_filter {K} (eqb : K -> K -> bool) (p : K -> bool) k xs :
  (forall a b, eqb a b = true <-> a = b) ->
  occ eqb k (filter p xs) = if p k then occ eqb k xs else 0.
Proof.
  intros eqb_eq. unfold occ. induction xs as [|x xs IH]; cbn [filter length].
  - now destruct (p k).
  - destruct (p x) eqn:Ep, (eqb x k) eqn:E; cbn [filter length]; rewrite ?E; cbn [length].
    + apply eqb_eq in E. subst x. rewrite Ep in *. now rewrite IH.
    + exact IH.
    + apply eqb_eq in E. subst x. rewrite Ep in *. exact IH.
    + exact IH.
Qed.

(** [emoji_helper] returns one row for each emoji that occurs in the
    selected messages, with its number of occurrences in them, the larger
    counts first; a character that is no emoji never has a row. *)
Theorem emoji_helper_counts EMOJI_DATA selected_user df :
  let text := flat_map message (rows (select_user selected_user df)) in
  let t := emoji_helper EMOJI_DATA selected_user df in
  NoDup (map fst t)
  /\ (forall c n, In (c, n) t <-> EMOJI_DATA c = true /\ n = occ Ascii.eqb c text /\ 1 <= n)
  /\ StronglySorted count_desc t.
Proof.
  intros text t.
  assert (Ht : t = by_count_desc (Counter Ascii.eqb (filter EMOJI_DATA text))).
  { unfold t, emoji_helper, text. rewrite flat_map_filter.
    now destruct (filter EMOJI_DATA _). }
  destruct (most_common_spec Ascii.eqb Ascii.eqb_eq (filter EMOJI_DATA text))
    as (Hn & Hin & _ & _ & Hsort).
  rewrite <- Ht in Hn, Hin, Hsort. split; [exact Hn|]. split; [|exact Hsort].
  intros c n. rewrite Hin, (occ_filter Ascii.eqb EMOJI_DATA c text Ascii.eqb_eq).
  destruct (EMOJI_DATA c); split; intros H; try tauto.
  - destruct H. lia.
  - destruct H as [H _]. discriminate H.
Qed.

(* ================================================================== *)
(** * [monthly_timeline] and [daily_timeline] *)

Lemma lex_leb_total a b : lex_leb a b = true \/ lex_leb b a = true.
Proof.
  revert b. induction a as [|x a IH]; intros [|y b]; cbn [lex_leb]; auto.
  destruct (Nat.lt_trichotomy x y) as [H|[H|H]].
  - left. apply Nat.ltb_lt in H. now rewrite H.
  - subst y. rewrite Nat.eqb_refl, Nat.ltb_irrefl. cbn [orb andb]. apply IH.
  - right. apply Nat.ltb_lt in H. now rewrite H.
Qed.

Lemma lex_leb_trans a : forall b c,
  length a = length b -> length b = length c ->
  lex_leb a b = true -> lex_leb b c = true -> lex_leb a c = true.
Proof.
  induction a as [|x a IH]; intros [|y b] [|z c] Hab Hbc H1 H2; try discriminate; [reflexivity|].
  cbn [lex_leb length] in *. injection Hab as Hab. injection Hbc as Hbc.
  apply orb_true_iff in H1, H2. apply orb_true_iff.
  destruct H1 as [H1|H1]; [apply Nat.ltb_lt in H1|apply andb_true_iff in H1 as [E1 H1];
                                                  apply Nat.eqb_eq in E1; subst y];
    (destruct H2 as [H2|H2]; [apply Nat.ltb_lt in H2|apply andb_true_iff in H2 as [E2 H2];
                                                     apply Nat.eqb_eq in E2; subst z]).
  - left. apply Nat.ltb_lt. lia.
  - left. now apply Nat.ltb_lt.
  - left. now apply Nat.ltb_lt.
  - right. rewrite Nat.eqb_refl. cbn [andb]. eapply IH; eauto.
Qed.

Lemma lex_leb_antisym a : forall b,
  length a = length b -> lex_leb a b = true -> lex_leb b a = true -> a = b.
Proof.
  induction a as [|x a IH]; intros [|y b] Hab H1 H2; try discriminate; [reflexivity|].
  cbn [lex_leb length] in *. injection Hab as Hab.
  apply orb_true_iff in H1, H2.
  destruct H1 as [H1|H1]; [apply Nat.ltb_lt in H1|apply andb_true_iff in H1 as [E1 H1];
                                                  apply Nat.eqb_eq in E1; subst y];
    (destruct H2 as [H2|H2]; [apply Nat.ltb_lt in H2|apply andb_true_iff in H2 as [E2 H2];
                                                     try (apply Nat.eqb_eq in E2)]);
    try lia.
  f_equal. now apply IH.
Qed.

Lemma lex_leb_refl a : lex_leb a a = true.
Proof.
  induction a as [|x a IH]; [reflexivity|]. cbn [lex_leb].
  now rewrite Nat.eqb_refl, IH, orb_true_r.
Qed.

Lemma triple_eqb_eq a b : triple_eqb a b = true <-> a = b.
Proof.
  destruct a as [[y m] s], b as [[y' m'] s']. unfold triple_eqb. cbn [fst snd].
  rewrite !andb_true_iff, !Nat.eqb_eq, str_eqb_eq. split.
  - now intros [[-> ->] ->].
  - now intros [= -> -> ->].
Qed.

Lemma date_eqb_eq a b : date_eqb a b = true <-> a = b.
Proof.
  unfold date_eqb. rewrite andb_true_iff. split.
  - intros [H1 H2]. apply lex_leb_antisym in H1; [|reflexivity|exact H2].
    destruct a as [[y m] d], b as [[y' m'] d']. now injection H1 as -> -> ->.
  - intros ->. now rewrite lex_leb_refl.
Qed.

Section Counted.
Context {K : Type} (eqb : K -> K -> bool).
Hypothesis eqb_eq : forall a b, eqb a b = true <-> a = b.

(** A table of counts in any order: [groupby(...).count()]. *)
Lemma counted_spec xs t :
  Permutation t (Counter eqb xs) ->
  NoDup (map fst t)
  /\ (forall k n, In (k, n) t <-> n = occ eqb k xs /\ 1 <= n)
  /\ list_sum (map snd t) = length xs.
Proof.
  intros Hperm. destruct (Counter_invariant eqb eqb_eq xs) as (Hn & Hp & Hs).
  assert (Hn' : NoDup (map fst t)).
  { eapply Permutation_NoDup; [apply Permutation_map; symmetry; exact Hperm|exact Hn]. }
  assert (Hp' : Forall (fun kv => 1 <= snd kv) t).
  { eapply Permutation_Forall; [symmetry; exact Hperm|exact Hp]. }
  assert (Hc : forall k, count_of eqb k t = occ eqb k xs).
  { intros k. rewrite (count_of_perm eqb eqb_eq (Counter eqb xs) t k Hn (Permutation_sym Hperm)).
    apply count_of_Counter; exact eqb_eq. }
  split; [exact Hn'|]. split.
  - intros k n. split.
    + intros Hin. rewrite <- Hc, (count_of_entry eqb eqb_eq t k n Hn' Hin). split; [reflexivity|].
      rewrite Forall_forall in Hp'. exact (Hp' _ Hin).
    + intros [-> H1]. rewrite <- Hc in H1 |- *.
      apply (count_of_key eqb eqb_eq t k Hp') in H1.
      apply in_map_iff in H1 as ([k0 n0] & <- & Hin). cbn [fst].
      now rewrite (count_of_entry eqb eqb_eq t k0 n0 Hn' Hin).
  - rewrite <- Hs. apply Permutation_list_sum. now apply Permutation_map.
Qed.

End Counted.

(** The monthly timeline has one row for each (year, month number, month
    name) of the selected records, with the number of records of that month
    and the label "<month name>-<year>"; the rows are in the order of year and
    month number, and the counts add up to the number of selected records. *)
Theorem monthly_timeline_rows selected_user df :
  let sel := rows (select_user selected_user df) in
  let key r := (year r, month_num r, month r) in
  let t := monthly_timeline selected_user df in
  NoDup (map (fun m => (m_year m, m_month_num m, m_month m)) t)
  /\ (forall m, In m t ->
                m_time m = m_month m ++ lit "-" ++ str_of_nat (m_year m)
                /\ m_message m
                   = length (filter (fun r => triple_eqb (key r) (m_year m, m_month_num m, m_month m))
                                    sel)
                /\ 1 <= m_message m)
  /\ (forall r, In r sel -> In (key r) (map (fun m => (m_year m, m_month_num m, m_month m)) t))
  /\ list_sum (map m_message t) = length sel
  /\ StronglySorted (fun a b => lex_le (month_key a) (month_key b)) t.
Proof.
  intros sel key t.
  set (mk := fun kv : nat * nat * str * nat =>
               {| m_year := fst (fst (fst kv)); m_month_num := snd (fst (fst kv));
                  m_month := snd (fst kv); m_message := snd kv;
                  m_time := snd (fst kv) ++ lit "-" ++ str_of_nat (fst (fst (fst kv))) |}).
  set (g := group_count triple_eqb triple_leb (map key sel)).
  assert (Ht : t = sort_by (fun a b => lex_leb [m_year a; m_month_num a]
                                               [m_year b; m_month_num b]) (map mk g))
    by reflexivity.
  assert (Hg : Permutation g (Counter triple_eqb (map key sel))) by apply sort_by_perm.
  destruct (counted_spec triple_eqb triple_eqb_eq (map key sel) g Hg) as (Hn & Hin & Hs).
  assert (Hperm : Permutation t (map mk g)) by (rewrite Ht; apply sort_by_perm).
  assert (Hkeys : forall l, map (fun m => (m_year m, m_month_num m, m_month m)) (map mk l)
                            = map fst l).
  { intros l. rewrite map_map. apply map_ext. now intros [[[y m] s] n]. }
  assert (Hmsg : forall l, map m_message (map mk l) = map snd l).
  { intros l. rewrite map_map. apply map_ext. now intros [[[y m] s] n]. }
  split; [|split; [|split; [|split]]].
  - eapply Permutation_NoDup; [apply Permutation_map; symmetry; exact Hperm|].
    now rewrite Hkeys.
  - intros m Hm. apply (Permutation_in _ Hperm) in Hm.
    apply in_map_iff in Hm as ([[[y mn] s] n] & <- & Hm). cbn [mk m_time m_month m_year
      m_message m_month_num fst snd]. apply Hin in Hm as [-> H1].
    split; [reflexivity|]. split; [apply occ_map|exact H1].
  - intros r Hr.
    assert (H : In (key r, occ triple_eqb (key r) (map key sel)) g).
    { apply Hin. split; [reflexivity|]. apply (occ_in triple_eqb triple_eqb_eq).
      now apply in_map. }
    eapply Permutation_in; [apply Permutation_map; symmetry; exact Hperm|].
    rewrite Hkeys. apply in_map_iff. now exists (key r, occ triple_eqb (key r) (map key sel)).
  - rewrite (Permutation_list_sum (Permutation_map m_message Hperm)), Hmsg, Hs.
    apply length_map.
  - rewrite Ht. apply Sorted_StronglySorted.
    + intros a b c Hab Hbc. unfold lex_le, month_key in *.
      eapply lex_leb_trans; [| |exact Hab|exact Hbc]; reflexivity.
    + apply (sort_by_sorted (fun a b => lex_leb [m_year a; m_month_num a]
                                                [m_year b; m_month_num b])).
      intros a b. apply lex_leb_total.
Qed.

(** The daily timeline has one row for each calendar date of the selected
    records, with the number of records of that date; the dates are distinct
    and ascending, and the counts add up to the number of selected records. *)
Theorem daily_timeline_rows selected_user df :
  let sel := rows (select_user selected_user df) in
  let t := daily_timeline selected_user df in
  NoDup (map fst t)
  /\ (forall d n, In (d, n) t
                  <-> n = length (filter (fun r => date_eqb (only_date r) d) sel) /\ 1 <= n)
  /\ list_sum (map snd t) = length sel
  /\ StronglySorted (fun a b => lex_le (date_key (fst a)) (date_key (fst b))) t.
Proof.
  intros sel t.
  set (g := group_count date_eqb (fun a b => lex_leb (date_key a) (date_key b))
                        (map only_date sel)).
  assert (Ht : t = sort_by (fun a b => lex_leb (date_key (fst a)) (date_key (fst b))) g)
    by reflexivity.
  assert (Hp : Permutation t (Counter date_eqb (map only_date sel))).
  { rewrite Ht. etransitivity; apply sort_by_perm. }
  destruct (counted_spec date_eqb date_eqb_eq (map only_date sel) t Hp) as (Hn & Hin & Hs).
  split; [exact Hn|]. split; [|split].
  - intros d n. rewrite Hin. now rewrite occ_map.
  - rewrite Hs. apply length_map.
  - rewrite Ht. apply Sorted_StronglySorted.
    + intros a b c Hab Hbc. unfold lex_le in *.
      eapply lex_leb_trans; [| |exact Hab|exact Hbc]; reflexivity.
    + apply (sort_by_sorted (fun a b => lex_leb (date_key (fst a)) (date_key (fst b)))).
      intros a b. apply lex_leb_total.
Qed.

(* ================================================================== *)
(** * [activity_heatmap] *)

Lemma str_leb_total a b : str_leb a b = true \/ str_leb b a = true.
Proof.
  revert b. induction a as [|x a IH]; intros [|y b]; cbn [str_leb]; auto.
  destruct (Nat.lt_trichotomy (code x) (code y)) as [H|[H|H]].
  - left. apply Nat.ltb_lt in H. now rewrite H.
  - rewrite H, Nat.eqb_refl, Nat.ltb_irrefl. cbn [orb andb]. apply IH.
  - right. apply Nat.ltb_lt in H. now rewrite H.
Qed.

Lemma str_leb_trans a : forall b c,
  str_leb a b = true -> str_leb b c = true -> str_leb a c = true.
Proof.
  induction a as [|x a IH]; intros [|y b] [|z c] H1 H2; try discriminate; try reflexivity.
  cbn [str_leb] in *. apply orb_true_iff in H1, H2. apply orb_true_iff.
  destruct H1 as [H1|H1]; [apply Nat.ltb_lt in H1|apply andb_true_iff in H1 as [E1 H1];
                                                  apply Nat.eqb_eq in E1];
    (destruct H2 as [H2|H2]; [apply Nat.ltb_lt in H2|apply andb_true_iff in H2 as [E2 H2];
                                                     apply Nat.eqb_eq in E2]).
  - left. apply Nat.ltb_lt. lia.
  - left. apply Nat.ltb_lt. lia.
  - left. apply Nat.ltb_lt. lia.
  - right. apply andb_true_iff. split; [apply Nat.eqb_eq; lia|]. eapply IH; eauto.
Qed.

(** The distinct values of a column, in ascending order. *)
Lemma distinct_sorted_spec l :
  NoDup (distinct_sorted l)
  /\ (forall x, In x (distinct_sorted l) <-> In x l)
  /\ StronglySorted (fun a b => str_leb a b = true) (distinct_sorted l).
Proof.
  unfold distinct_sorted.
  pose proof (sort_by_perm str_leb (map fst (Counter str_eqb l))) as Hperm.
  destruct (Counter_invariant str_eqb str_eqb_eq l) as (Hn & Hp & _).
  split; [|split].
  - eapply Permutation_NoDup; [symmetry; exact Hperm|exact Hn].
  - intros x.
    assert (Hk : In x (map fst (Counter str_eqb l)) <-> In x l).
    { rewrite (count_of_key str_eqb str_eqb_eq _ x Hp),
        (count_of_Counter str_eqb str_eqb_eq). symmetry. apply (occ_in str_eqb str_eqb_eq). }
    rewrite <- Hk. split; apply Permutation_in; [exact Hperm|symmetry; exact Hperm].
  - apply Sorted_StronglySorted.
    + intros a b c. apply str_leb_trans.
    + apply sort_by_sorted, str_leb_total.
Qed.

Lemma find_labelled {V} (g : str -> V) (d : str) (keys : list str) :
  find (fun row => str_eqb (fst row) d) (map (fun k => (k, g k)) keys)
  = if existsb (fun k => str_eqb k d) keys then Some (d, g d) else None.
Proof.
  induction keys as [|k keys IH]; [reflexivity|]. cbn [map find fst existsb].
  destruct (str_eqb k d) eqn:E; [|exact IH].
  apply str_eqb_eq in E. now subst k.
Qed.

Lemma existsb_str_in d keys : existsb (fun k => str_eqb k d) keys = true <-> In d keys.
Proof.
  rewrite existsb_exists. split.
  - intros (k & Hk & E). apply str_eqb_eq in E. now subst k.
  - intros H. exists d. split; [exact H|apply str_eqb_refl].
Qed.

(** The heat map: its columns are the distinct hour labels of the selected
    records in ascending order of their text; the row of a weekday with
    records holds, for each column, the number of records of that weekday
    and label (0 where there is none); the row of a weekday without records
    holds NaN in every column. *)
Theorem activity_heatmap_cells selected_user df :
  let sel := rows (select_user selected_user df) in
  let t := activity_heatmap selected_user df in
  NoDup (columns t)
  /\ (forall p, In p (columns t) <-> exists r, In r sel /\ period r = p)
  /\ StronglySorted (fun a b => str_leb a b = true) (columns t)
  /\ index t
     = map (fun d => (d, match rows_on d sel with
                         | [] => map (fun _ => None) (columns t)
                         | _ :: _ => map (fun p => Some (length (rows_at d p sel))) (columns t)
                         end)) day_order.
Proof.
  intros sel t.
  destruct (distinct_sorted_spec (map period sel)) as (Hn & Hin & Hs).
  destruct (distinct_sorted_spec (map day_name sel)) as (_ & Hdays & _).
  assert (Hcols : columns t = distinct_sorted (map period sel)) by reflexivity.
  rewrite Hcols. split; [exact Hn|]. split; [|split; [exact Hs|]].
  - intros p. rewrite Hin, in_map_iff. split; intros (r & H1 & H2); exists r; auto.
  - unfold t, activity_heatmap, reindex_rows, fillna, pivot_table. fold sel.
    cbn [index columns]. rewrite map_map. cbn [fst snd]. apply map_ext_in. intros d _. f_equal.
    rewrite (find_labelled
               (fun k => map (fun c => match c with None => Some 0 | Some n => Some n end)
                          (map (fun p => match length (filter (fun r => str_eqb (day_name r) k
                                                                       && str_eqb (period r) p)
                                                              sel) with
                                         | 0 => None
                                         | S n => Some (S n)
                                         end) (distinct_sorted (map period sel))))).
    destruct (existsb _ _) eqn:E.
    + apply existsb_str_in, Hdays, in_map_iff in E as (r & Hr & Hin').
      assert (Hon : In r (rows_on d sel)).
      { apply filter_In. split; [exact Hin'|]. rewrite Hr. apply str_eqb_refl. }
      destruct (rows_on d sel); [contradiction|]. cbn [snd]. rewrite map_map.
      apply map_ext. intros p. unfold rows_at. now destruct (length _).
    + destruct (rows_on d sel) as [|r l] eqn:Eon; [reflexivity|exfalso].
      assert (Hon : In r (rows_on d sel)) by (rewrite Eon; now left).
      apply filter_In in Hon as [Hon Hd]. apply str_eqb_eq in Hd.
      assert (Hk : existsb (fun k => str_eqb k d) (distinct_sorted (map day_name sel)) = true).
      { apply existsb_str_in, Hdays, in_map_iff. now exists r. }
      congruence.
Qed.

(* ================================================================== *)
(** * [app.py]: the list of authors offered for selection *)

Lemma unique_spec l : NoDup (unique l) /\ forall x, In x (unique l) <-> In x l.
Proof.
  unfold unique. destruct (Counter_invariant str_eqb str_eqb_eq l) as (Hn & Hp & _).
  split; [exact Hn|]. intros x.
  rewrite (count_of_key str_eqb str_eqb_eq _ x Hp), (count_of_Counter str_eqb str_eqb_eq).
  symmetry. apply (occ_in str_eqb str_eqb_eq).
Qed.

Lemma list_remove_spec x l :
  NoDup l -> NoDup (list_remove x l) /\ forall y, In y (list_remove x l) <-> In y l /\ y <> x.
Proof.
  induction 1 as [|z l Hz Hn IH]; cbn [list_remove].
  - split; [constructor|]. intros y. cbn. tauto.
  - destruct (str_eqb z x) eqn:E.
    + apply str_eqb_eq in E. subst z. split; [exact Hn|]. intros y. cbn [In]. split.
      * intros Hy. split; [now right|]. intros ->. contradiction.
      * intros [[->|Hy] Hne]; [congruence|exact Hy].
    + destruct IH as [IH1 IH2]. split.
      * constructor; [|exact IH1]. intros H. apply IH2 in H. tauto.
      * intros y. cbn [In]. rewrite IH2. split.
        -- intros [->|[Hy Hne]]; [split; [now left|]|tauto].
           intros ->. rewrite str_eqb_refl in E. discriminate.
        -- intros [[->|Hy] Hne]; [now left|right; tauto].
Qed.

(** The selection box offers 'Overall' first and then, each once and in
    ascending order, the authors of the records other than
    'group_notification'; none of the offered values selects an empty set of
    records, unless there is no record at all. *)
Theorem user_list_choices df :
  exists ul,
    user_list df = Overall :: ul
    /\ NoDup ul
    /\ StronglySorted (fun a b => str_leb a b = true) ul
    /\ (forall u, In u ul <-> u <> group_notification /\ exists r, In r (rows df) /\ user r = u)
    /\ (forall u, In u (user_list df) -> rows (select_user u df) = [] -> rows df = []).
Proof.
  unfold user_list. destruct (unique_spec (map user (rows df))) as [Hn Hin].
  set (ul0 := unique (map user (rows df))) in *.
  set (ul1 := if mem group_notification ul0 then list_remove group_notification ul0 else ul0).
  assert (H1 : NoDup ul1 /\ forall u, In u ul1 <-> In u ul0 /\ u <> group_notification).
  { unfold ul1. destruct (mem group_notification ul0) eqn:E.
    - apply list_remove_spec, Hn.
    - split; [exact Hn|]. intros u. split; [|tauto]. intros Hu. split; [exact Hu|].
      intros ->. unfold mem in E.
      assert (existsb (str_eqb group_notification) ul0 = true); [|congruence].
      apply existsb_exists. exists group_notification. split; [exact Hu|apply str_eqb_refl]. }
  destruct H1 as [Hn1 Hin1].
  pose proof (sort_by_perm str_leb ul1) as Hperm.
  assert (Hmem : forall u, In u (sort_by str_leb ul1)
                           <-> u <> group_notification /\ exists r, In r (rows df) /\ user r = u).
  { intros u. split.
    - intros Hu. apply (Permutation_in _ Hperm), Hin1 in Hu as [Hu Hne].
      split; [exact Hne|]. apply Hin, in_map_iff in Hu as (r & Hr & Hu). now exists r.
    - intros [Hne (r & Hr & Hu)]. apply (Permutation_in _ (Permutation_sym Hperm)), Hin1.
      split; [|exact Hne]. apply Hin, in_map_iff. now exists r. }
  exists (sort_by str_leb ul1). split; [reflexivity|]. split; [|split; [|split; [exact Hmem|]]].
  - eapply Permutation_NoDup; [symmetry; exact Hperm|exact Hn1].
  - apply Sorted_StronglySorted; [intros a b c; apply str_leb_trans|].
    apply sort_by_sorted, str_leb_total.
  - intros u Hu Hempty. unfold select_user in Hempty.
    destruct (str_eqb u Overall) eqn:E; cbn [negb] in Hempty; [exact Hempty|].
    destruct Hu as [<-|Hu]; [now rewrite str_eqb_refl in E|].
    apply Hmem in Hu as [_ (r & Hr & Hu)]. cbn [rows] in Hempty.
    assert (Hf : In r (filter (fun r => str_eqb (user r) u) (rows df))).
    { apply filter_In. split; [exact Hr|]. rewrite Hu. apply str_eqb_refl. }
    rewrite Hempty in Hf. contradiction.
Qed.

(* ================================================================== *)
(** * [app.py]: the stop-word file *)

Lemma split_lines_aux_word w : forall cur rest,
  ~ In newline w -> split_lines_aux cur (w ++ rest) = split_lines_aux (rev w ++ cur) rest.
Proof.
  induction w as [|c w IH]; intros cur rest H; [reflexivity|].
  cbn [app split_lines_aux]. destruct (Ascii.eqb_spec c "010"%char) as [->|Hc].
  - exfalso. apply H. now left.
  - rewrite IH; [|intros Hin; apply H; now right]. cbn [rev]. now rewrite <- app_assoc.
Qed.

Lemma split_lines_aux_join ws : forall cur,
  ws <> [] -> Forall (fun w => ~ In newline w) ws ->
  split_lines_aux cur (join [newline] ws) = (rev cur ++ hd [] ws) :: tl ws.
Proof.
  induction ws as [|w ws IH]; intros cur Hne Hf; [congruence|].
  inversion Hf as [|? ? Hw Hws]; subst. cbn [hd tl]. destruct ws as [|w' ws].
  - cbn [join]. rewrite <- (app_nil_r w) at 1. rewrite split_lines_aux_word by exact Hw.
    cbn [split_lines_aux]. now rewrite rev_app_distr, rev_involutive.
  - change (join [newline] (w :: w' :: ws)) with (w ++ [newline] ++ join [newline] (w' :: ws)).
    rewrite split_lines_aux_word by exact Hw. cbn [app split_lines_aux].
    change (Ascii.eqb newline "010"%char) with true. cbv iota.
    rewrite IH; [|discriminate|exact Hws]. cbn [rev app hd tl].
    now rewrite rev_app_distr, rev_involutive.
Qed.

(** ** Writing and reading the file *)

Lemma to_N_byte_of_ascii c : Byte.to_N (byte_of_ascii c) = N_of_ascii c.
Proof. destruct c as [[] [] [] [] [] [] [] []]; reflexivity. Qed.

Lemma utf_8_decode_ascii s :
  forallb is_ascii s = true -> utf_8_decode (points s) = Ok (points s).
Proof.
  induction s as [|c s IH]; intros H; [reflexivity|].
  cbn [forallb] in H. apply andb_true_iff in H as [Hc Hs].
  unfold points in *. cbn [map utf_8_decode]. unfold is_ascii in Hc. rewrite Hc.
  rewrite (IH Hs). reflexivity.
Qed.

Lemma N_of_ascii_eqb c d : (N_of_ascii c =? N_of_ascii d)%N = Ascii.eqb c d.
Proof.
  destruct (Ascii.eqb_spec c d) as [->|Hn]; [apply N.eqb_refl|].
  apply N.eqb_neq. intros H. apply Hn.
  rewrite <- (ascii_N_embedding c), <- (ascii_N_embedding d). now rewrite H.
Qed.

Lemma universal_newlines_other c t :
  (c =? 13)%N = false -> universal_newlines (c :: t) = c :: universal_newlines t.
Proof. intros H. cbn [universal_newlines]. now rewrite H. Qed.

Lemma universal_newlines_crlf t :
  universal_newlines (13 :: 10 :: t)%N = 10%N :: universal_newlines t.
Proof. reflexivity. Qed.

(** What is written for a line end is read as a line end, on both systems. *)
Lemma universal_translate o s :
  forallb (fun c => negb (Ascii.eqb c CR)) s = true ->
  universal_newlines (points (translate_newlines o s)) = points s.
Proof.
  induction s as [|c s IH]; intros H; [reflexivity|].
  cbn [forallb] in H. apply andb_true_iff in H as [Hc Hs]. apply negb_true_iff in Hc.
  specialize (IH Hs). unfold points, translate_newlines in *. cbn [flat_map].
  rewrite map_app. destruct (Ascii.eqb_spec c newline) as [->|Hn].
  - destruct o.
    + change (map N_of_ascii (linesep posix)) with [10%N]. cbn [app].
      rewrite universal_newlines_other by reflexivity. now rewrite IH.
    + change (map N_of_ascii (linesep nt)) with [13%N; 10%N]. cbn [app].
      rewrite universal_newlines_crlf. now rewrite IH.
  - cbn [app map]. rewrite universal_newlines_other.
    + now rewrite IH.
    + change 13%N with (N_of_ascii CR). now rewrite N_of_ascii_eqb.
Qed.

Lemma forallb_join (P : ascii -> bool) sep ws :
  forallb P sep = true -> Forall (fun w => forallb P w = true) ws ->
  forallb P (join sep ws) = true.
Proof.
  intros Hsep Hws. induction Hws as [|w ws Hw Hws IH]; [reflexivity|].
  destruct ws as [|w' ws]; [exact Hw|].
  change (join sep (w :: w' :: ws)) with (w ++ sep ++ join sep (w' :: ws)).
  rewrite !forallb_app, Hw, Hsep, IH. reflexivity.
Qed.

Lemma forallb_translate o s :
  forallb is_ascii s = true -> forallb is_ascii (translate_newlines o s) = true.
Proof.
  induction s as [|c s IH]; intros H; [reflexivity|].
  cbn [forallb] in H. apply andb_true_iff in H as [Hc Hs].
  unfold translate_newlines in *. cbn [flat_map]. rewrite forallb_app, (IH Hs), andb_true_r.
  destruct (Ascii.eqb c newline); [now destruct o|]. cbn [forallb]. now rewrite Hc.
Qed.

Lemma plain_words P ws :
  (forall c, plain c = true -> P c = true) ->
  Forall (fun w => forallb plain w = true) ws -> Forall (fun w => forallb P w = true) ws.
Proof.
  intros HP. apply Forall_impl. intros w Hw. rewrite forallb_forall in *.
  intros c Hc. apply HP, Hw, Hc.
Qed.

Lemma latin_1_ascii_compatible : ascii_compatible latin_1.
Proof. intros s _. reflexivity. Qed.

(** Words of ASCII characters without line ends, written to a text file with
    ["\n".join] on a system whose line end is ['\n'] or ['\r\n'] and whose
    preferred encoding writes ASCII as it is, come back from
    [read().split('\n')] on the file opened as UTF-8: the file can be
    written, the text read from it is the text written, and its lines are
    the words. *)
Theorem stop_words_round_trip o encode ws :
  ascii_compatible encode -> ws <> [] -> Forall (fun w => forallb plain w = true) ws ->
  exists file,
    write_text o encode (join [newline] ws) = Ok file
    /\ read_text file = Ok (points (join [newline] ws))
    /\ split_lines (join [newline] ws) = ws.
Proof.
  intros Henc Hne Hws.
  assert (Hascii : forallb is_ascii (join [newline] ws) = true).
  { apply forallb_join; [reflexivity|]. apply (plain_words is_ascii ws); [|exact Hws].
    intros c Hc. unfold plain in Hc. now destruct (is_ascii c). }
  assert (Hcr : forallb (fun c => negb (Ascii.eqb c CR)) (join [newline] ws) = true).
  { apply forallb_join; [reflexivity|].
    apply (plain_words (fun c => negb (Ascii.eqb c CR)) ws); [|exact Hws].
    intros c Hc. unfold plain in Hc. apply andb_true_iff in Hc as [_ Hc]. exact Hc. }
  assert (Hnl : Forall (fun w => ~ In newline w) ws).
  { revert Hws. apply Forall_impl. intros w Hw Hin. rewrite forallb_forall in Hw.
    specialize (Hw newline Hin). discriminate Hw. }
  exists (map byte_of_ascii (translate_newlines o (join [newline] ws))).
  split; [|split].
  - unfold write_text. apply Henc, forallb_translate, Hascii.
  - unfold read_text. rewrite map_map.
    rewrite (map_ext _ N_of_ascii to_N_byte_of_ascii).
    change (map N_of_ascii (translate_newlines o (join [newline] ws)))
      with (points (translate_newlines o (join [newline] ws))).
    rewrite (utf_8_decode_ascii _ (forallb_translate o _ Hascii)). cbn [bind].
    now rewrite (universal_translate o _ Hcr).
  - unfold split_lines. rewrite (split_lines_aux_join ws [] Hne Hnl).
    destruct ws; [congruence|reflexivity].
Qed.

Lemma default_stop_words_clean :
  default_stop_words <> [] /\ Forall (fun w => ~ In newline w) default_stop_words.
Proof.
  split; [discriminate|].
  apply Forall_forall. intros w Hw Hin.
  assert (H : forallb (fun w => negb (existsb (Ascii.eqb newline) w)) default_stop_words = true)
    by (vm_compute; reflexivity).
  rewrite forallb_forall in H. specialize (H w Hw). apply negb_true_iff in H.
  assert (existsb (Ascii.eqb newline) w = true); [|congruence].
  apply existsb_exists. exists newline. split; [exact Hin|apply Ascii.eqb_refl].
Qed.

Lemma default_stop_words_plain :
  Forall (fun w => forallb plain w = true) default_stop_words.
Proof.
  apply Forall_forall. intros w Hw.
  assert (H : forallb (fun w => forallb plain w) default_stop_words = true)
    by (vm_compute; reflexivity).
  rewrite forallb_forall in H. exact (H w Hw).
Qed.

Lemma stop_words_round_trip_witness :
  ascii_compatible latin_1
  /\ default_stop_words <> []
  /\ Forall (fun w => forallb plain w = true) default_stop_words
  /\ exists file,
      write_text nt latin_1 (join [newline] default_stop_words) = Ok file
      /\ read_text file = Ok (points (join [newline] default_stop_words))
      /\ split_lines (join [newline] default_stop_words) = default_stop_words.
Proof.
  destruct default_stop_words_clean as [H1 _].
  split; [exact latin_1_ascii_compatible|]. split; [exact H1|].
  split; [exact default_stop_words_plain|].
  exact (stop_words_round_trip nt latin_1 default_stop_words latin_1_ascii_compatible H1
                               default_stop_words_plain).
Defined.

(** [ensure_stop_words_file_exists] never changes a file that exists; after
    it the file exists, and the stop words read from a file it has created
    are the forty-four default words, so that [most_common_words] then
    reports none of them. *)
Theorem ensure_stop_words_file file selected_user df :
  (forall content, file = Some content -> ensure_stop_words_file_exists file = Some content)
  /\ (exists content, ensure_stop_words_file_exists file = Some content)
  /\ option_map split_lines (ensure_stop_words_file_exists None) = Some default_stop_words
  /\ length default_stop_words = 44
  /\ (forall w n, In (w, n) (most_common_words (ensure_stop_words_file_exists None)
                                               selected_user df) ->
                  ~ In w default_stop_words).
Proof.
  destruct default_stop_words_clean as [H1 H2].
  assert (Hread : split_lines (join [newline] default_stop_words) = default_stop_words).
  { unfold split_lines. rewrite (split_lines_aux_join default_stop_words [] H1 H2).
    destruct default_stop_words; [congruence|reflexivity]. }
  split; [now intros content ->|]. split; [destruct file; eexists; reflexivity|].
  split; [cbn [ensure_stop_words_file_exists option_map]; now rewrite Hread|].
  split; [reflexivity|].
  intros w n Hin Hw. unfold most_common_words in Hin.
  cbn [ensure_stop_words_file_exists] in Hin. rewrite Hread in Hin.
  destruct (text_rows selected_user df) as [msgs|e]; cbn [bind] in Hin; [|contradiction].
  set (words := flat_map _ msgs) in *.
  assert (Hk : In w words).
  { destruct (most_common_spec str_eqb str_eqb_eq words) as (_ & Hsp & _).
    apply (occ_in str_eqb str_eqb_eq).
    assert (Hfull : In (w, n) (by_count_desc (Counter str_eqb words))).
    { rewrite <- (firstn_skipn 20 (by_count_desc _)). apply in_or_app. now left. }
    apply Hsp in Hfull. lia. }
  unfold words in Hk. apply in_flat_map in Hk as (msg & _ & Hk).
  apply filter_In in Hk as [_ Hk]. apply andb_true_iff in Hk as [Hk _].
  apply negb_true_iff in Hk. unfold mem in Hk.
  assert (existsb (str_eqb w) default_stop_words = true); [|congruence].
  apply existsb_exists. exists w. split; [exact Hw|apply str_eqb_refl].
Qed.

(* ================================================================== *)
(** * [preprocess]: texts without timestamps, and what becomes of each match *)

(** [preprocess] raises exactly when the text has no timestamp match at all;
    the exception is then [AttributeError], and nothing has been shown.  A
    text with a match is never refused, whatever its dates are. *)
Theorem preprocess_raises_without_match data :
  (snd (preprocess data) = Raise AttributeError <-> re_findall pattern data = [])
  /\ (forall e, snd (preprocess data) = Raise e -> e = AttributeError /\ fst (preprocess data) = [])
  /\ (re_findall pattern data <> [] -> exists df, snd (preprocess data) = Ok df).
Proof.
  assert (Hempty : re_findall pattern data = [] -> preprocess data = ([], Raise AttributeError)).
  { intros H. unfold preprocess. rewrite H, combine_nil. reflexivity. }
  assert (Hok : re_findall pattern data <> [] -> exists df, snd (preprocess data) = Ok df).
  { intros H. destruct (preprocess_ok data H) as (df & Hdf & _). now exists df. }
  split; [split|split].
  - intros H. destruct (re_findall pattern data) eqn:E; [reflexivity|].
    destruct Hok as (df & Hdf); [discriminate|]. rewrite Hdf in H. discriminate H.
  - intros H. now rewrite (Hempty H).
  - intros e H. destruct (re_findall pattern data) eqn:E.
    + rewrite (Hempty eq_refl) in H |- *. cbn [fst snd] in *. now injection H as <-.
    + destruct Hok as (df & Hdf); [discriminate|]. rewrite Hdf in H. discriminate H.
  - exact Hok.
Qed.

Lemma preprocess_raises_without_match_witness :
  re_findall pattern example_export <> []
  /\ exists df, snd (preprocess example_export) = Ok df.
Proof.
  assert (H : re_findall pattern example_export <> []) by (vm_compute; discriminate).
  split; [exact H|].
  destruct (preprocess_raises_without_match example_export) as (_ & _ & Hok). exact (Hok H).
Defined.

Lemma parsed_or_failed df : length (parsed_rows df) + length (date_errors df) = length df.
Proof.
  unfold parsed_rows, date_errors. induction df as [|cd df IH]; [reflexivity|].
  cbn [flat_map]. rewrite !length_app. destruct (parse_date (snd cd)); cbn [length]; lia.
Qed.

(** Every timestamp match gives either a record or a diagnostic: the number
    of records and the number of diagnostics add up to the number of
    matches, so there are never more records than matches. *)
Theorem preprocess_accounts_for_matches data df :
  snd (preprocess data) = Ok df ->
  length (rows df) + length (fst (preprocess data)) = length (re_findall pattern data)
  /\ length (rows df) <= length (re_findall pattern data).
Proof.
  intros Hdf.
  assert (Hne : re_findall pattern data <> []).
  { intros H.
    assert (Hr : preprocess data = ([], Raise AttributeError))
      by (unfold preprocess; rewrite H, combine_nil; reflexivity).
    rewrite Hr in Hdf. discriminate Hdf. }
  destruct (preprocess_ok data Hne) as (df' & Hdf' & Hrows).
  rewrite Hdf in Hdf'. apply Ok_inj in Hdf'. subst df'.
  rewrite Hrows, preprocess_errors.
  pose proof (parsed_or_failed (combine (tl (re_split pattern data)) (re_findall pattern data))) as H.
  rewrite length_combine, (split_findall_length pattern data pattern_groupless), Nat.min_id in H.
  lia.
Qed.

Lemma preprocess_accounts_for_matches_witness :
  snd (preprocess example_export) = Ok (frame_of example_export)
  /\ length (rows (frame_of example_export)) + length (fst (preprocess example_export))
     = length (re_findall pattern example_export).
Proof.
  assert (H : snd (preprocess example_export) = Ok (frame_of example_export))
    by (vm_compute; reflexivity).
  split; [exact H|].
  exact (proj1 (preprocess_accounts_for_matches example_export (frame_of example_export) H)).
Defined.

(** ** The text is cut, not changed *)

Section Pieces.
Context {C : Type}.

Lemma finditer_whole (r : regex C) s :
  flat_map (fun f => before f ++ matched f) (fst (finditer r s)) ++ snd (finditer r s) = s.
Proof.
  apply (finditer_ind r (fun s res => flat_map (fun f => before f ++ matched f) (fst res)
                                      ++ snd res = s)).
  - reflexivity.
  - intros c s' g rest Hhit IH. cbn [emit fst snd flat_map before matched app].
    rewrite <- app_assoc, IH.
    destruct (hit_suffix r (c :: s') g rest Hhit) as [w Hw].
    rewrite Hw at 2. rewrite Hw, length_app, Nat.add_sub, firstn_app, Nat.sub_diag, firstn_all.
    cbn [firstn]. now rewrite app_nil_r.
  - intros c s' _ IH. destruct (finditer r s') as [[|f fs] tl0]; cbn [skip fst snd flat_map] in *.
    + now rewrite <- IH.
    + cbn [before matched]. rewrite <- IH. now rewrite <- !app_assoc.
Qed.

Lemma pieces_whole (fs : list (found C)) (tl0 : list C) :
  hd [] (map before fs ++ [tl0])
  ++ flat_map (fun cd => snd cd ++ fst cd)
              (combine (tl (map before fs ++ [tl0])) (map matched fs))
  = flat_map (fun f => before f ++ matched f) fs ++ tl0.
Proof.
  induction fs as [|f fs IH]; [cbn; rewrite ?app_nil_r; reflexivity|].
  cbn [map app hd tl]. change (flat_map (fun f0 => before f0 ++ matched f0) (f :: fs))
    with ((before f ++ matched f) ++ flat_map (fun f0 => before f0 ++ matched f0) fs).
  rewrite <- !app_assoc. f_equal.
  destruct fs as [|f' fs]; [cbn; rewrite ?app_nil_r; reflexivity|].
  rewrite <- IH. cbn [map app hd tl combine flat_map fst snd].
  now rewrite <- !app_assoc.
Qed.

End Pieces.

(** Nothing of the text is lost in the cutting: the text before the first
    timestamp, followed by each date with its chunk, is the text again. *)
Theorem preprocess_cuts_the_text data :
  hd [] (re_split pattern data)
  ++ flat_map (fun cd => snd cd ++ fst cd)
              (combine (tl (re_split pattern data)) (re_findall pattern data))
  = data.
Proof.
  rewrite (re_split_groupless pattern data pattern_groupless),
    (re_findall_groupless pattern data pattern_groupless), pieces_whole.
  apply finditer_whole.
Qed.

(* ================================================================== *)
(** * [fetch_stats] under the author filter *)

Lemma length_flat_map_filter {A B} (f : A -> list B) (p : A -> bool) l :
  length (flat_map f (filter p l)) <= length (flat_map f l).
Proof.
  induction l as [|x l IH]; [reflexivity|]. cbn [filter flat_map].
  destruct (p x); cbn [flat_map]; rewrite !length_app; lia.
Qed.

Lemma length_filter_filter {A} (q p : A -> bool) l :
  length (filter q (filter p l)) <= length (filter q l).
Proof.
  induction l as [|x l IH]; [reflexivity|]. cbn [filter].
  destruct (p x); cbn [filter]; destruct (q x); cbn [length]; lia.
Qed.

(** The statistics of one author never exceed those of the whole chat, and
    [fetch_stats] raises for a selection exactly when it raises for the
    whole chat. *)
Theorem fetch_stats_of_a_selection selected_user df :
  match fetch_stats Overall df, fetch_stats selected_user df with
  | Ok (n, w, m, l), Ok (n', w', m', l') => n' <= n /\ w' <= w /\ m' <= m /\ l' <= l
  | Raise e, Raise e' => e = e'
  | _, _ => False
  end.
Proof.
  unfold fetch_stats, media_rows, str_accessor.
  rewrite select_user_Overall. unfold select_user.
  destruct (negb (str_eqb selected_user Overall)); cbn [rows text_dtype];
    destruct (text_dtype df); cbn [bind rows]; try reflexivity.
  - repeat split.
    + apply filter_length_le.
    + apply length_flat_map_filter.
    + apply length_filter_filter.
    + apply length_flat_map_filter.
  - repeat split; lia.
Qed.

(* ================================================================== *)
(** * [most_common_words] *)

Lemma re_sub_class (p : ascii -> bool) s :
  re_sub (Cls p) [] s = filter (fun c => negb (p c)) s.
Proof.
  unfold re_sub. induction s as [|c s IH]; [reflexivity|].
  rewrite finditer_cons. unfold hit, match_at. cbn [rm filter].
  destruct (p c); cbn [hd_error negb].
  - replace (length s <? length (c :: s)) with true
      by (symmetry; apply Nat.ltb_lt; simpl; lia).
    destruct (finditer (Cls p) s) as [fs tl0]. cbn [emit fst snd flat_map before app]. exact IH.
  - destruct (finditer (Cls p) s) as [[|f fs] tl0]; cbn [skip flat_map before app] in *.
    + now rewrite <- IH.
    + rewrite <- IH. now rewrite <- !app_assoc.
Qed.

Lemma split_ws_aux_tokens s : forall cur w,
  Forall (fun c => is_space c = false) cur ->
  In w (split_ws_aux cur s) ->
  w <> [] /\ Forall (fun c => is_space c = false /\ (In c cur \/ In c s)) w.
Proof.
  assert (Hrev : forall cur, cur <> [] -> Forall (fun c => is_space c = false) cur ->
                             forall s, rev cur <> []
                                       /\ Forall (fun c => is_space c = false
                                                           /\ (In c cur \/ In c s)) (rev cur)).
  { intros cur Hne Hf s0. split.
    - intros H. apply (f_equal (@rev ascii)) in H. rewrite rev_involutive in H. now subst.
    - apply Forall_forall. intros c Hc. apply in_rev in Hc. rewrite Forall_forall in Hf. auto. }
  induction s as [|c s IH]; intros cur w Hf Hin; cbn [split_ws_aux] in Hin.
  - destruct cur as [|c0 cur]; [contradiction|]. destruct Hin as [<-|[]].
    apply Hrev; [discriminate|exact Hf].
  - destruct (is_space c) eqn:E.
    + assert (Hnil : In w (split_ws_aux [] s) ->
                     w <> [] /\ Forall (fun c0 => is_space c0 = false
                                                  /\ (In c0 cur \/ In c0 (c :: s))) w).
      { intros H. destruct (IH [] w (Forall_nil _) H) as [H1 H2]. split; [exact H1|].
        eapply Forall_impl; [|exact H2]. cbn. intros a [Ha [[]|Hb]]. auto. }
      destruct cur as [|c0 cur]; [auto|]. destruct Hin as [<-|Hin]; [|auto].
      apply Hrev; [discriminate|exact Hf].
    + destruct (IH (c :: cur) w (Forall_cons _ E Hf) Hin) as [H1 H2]. split; [exact H1|].
      eapply Forall_impl; [|exact H2]. cbn. intros a [Ha [[Hb|Hb]|Hb]]; auto.
Qed.

(** The tokens of [str.split()] are non-empty runs of characters of the
    text, none of them a whitespace character. *)
Lemma split_ws_tokens s w :
  In w (split_ws s) -> w <> [] /\ Forall (fun c => is_space c = false /\ In c s) w.
Proof.
  intros H. destruct (split_ws_aux_tokens s [] w (Forall_nil _) H) as [H1 H2].
  split; [exact H1|]. eapply Forall_impl; [|exact H2]. cbn. tauto.
Qed.

(** No row of [most_common_words] is a stop word of the list read, nor a
    single character, and its word has word characters only; the words are
    distinct, each with its count, the larger counts first, and there are at
    most twenty rows. *)
Theorem most_common_words_rows content selected_user df :
  let t := most_common_words (Some content) selected_user df in
  length t <= 20
  /\ NoDup (map fst t)
  /\ StronglySorted count_desc t
  /\ (forall w n, In (w, n) t ->
                  ~ In w (split_lines content) /\ 1 < length w
                  /\ Forall (fun c => is_word c = true) w /\ 1 <= n).
Proof.
  intros t. unfold most_common_words in t.
  destruct (text_rows selected_user df) as [msgs|e]; cbn [bind] in t;
    [|repeat split; try constructor; cbn; try lia; contradiction].
  set (words := flat_map _ msgs) in t.
  destruct (most_common_spec str_eqb str_eqb_eq words) as (Hn & Hin & _ & _ & Hsort).
  set (full := by_count_desc (Counter str_eqb words)) in *.
  assert (Hsub : forall x, In x t -> In x full).
  { intros x Hx. rewrite <- (firstn_skipn 20 full). apply in_or_app. now left. }
  split; [apply firstn_le_length|]. split; [|split; [apply StronglySorted_firstn, Hsort|]].
  - unfold t. rewrite <- firstn_map. rewrite <- (firstn_skipn 20 (map fst full)) in Hn.
    now apply NoDup_app_remove_r in Hn.
  - intros w n Hw. apply Hsub, Hin in Hw as [-> Hocc].
    assert (Hk : In w words) by now apply (occ_in str_eqb str_eqb_eq).
    unfold words in Hk. apply in_flat_map in Hk as (msg & _ & Hk).
    apply filter_In in Hk as [Htok Hk]. apply andb_true_iff in Hk as [Hstop Hlen].
    apply negb_true_iff in Hstop. apply Nat.ltb_lt in Hlen.
    split; [|split; [exact Hlen|split; [|exact Hocc]]].
    + intros Hin'. unfold mem in Hstop.
      assert (existsb (str_eqb w) (split_lines content) = true); [|congruence].
      apply existsb_exists. exists w. split; [exact Hin'|apply str_eqb_refl].
    + apply split_ws_tokens in Htok as [_ Htok]. eapply Forall_impl; [|exact Htok].
      cbn. intros c [Hsp Hc]. unfold punct_pattern in Hc. rewrite re_sub_class in Hc.
      apply filter_In in Hc as [_ Hc]. rewrite negb_involutive, Hsp, orb_false_r in Hc.
      exact Hc.
Qed.

(* ================================================================== *)
(** * What a match of the matcher is *)

Section Soundness.
Context {C : Type}.
Implicit Types (r : regex C) (s v : list C) (p : C -> bool).

Lemma rep_greedy_sound p : forall hi lo s x,
  In x (rep_greedy p lo hi s) ->
  exists v, s = v ++ x /\ lo <= length v <= hi /\ Forall (fun c => p c = true) v.
Proof.
  induction hi as [|hi IH]; intros lo s x H.
  - assert (H0 : In x (if lo =? 0 then [s] else [])) by (destruct s; exact H).
    destruct (lo =? 0) eqn:E; [|contradiction]. destruct H0 as [<-|[]].
    apply Nat.eqb_eq in E. exists []. repeat split; cbn; try lia. constructor.
  - assert (Hzero : In x (if lo =? 0 then [s] else []) ->
                    exists v, s = v ++ x /\ lo <= length v <= S hi
                              /\ Forall (fun c => p c = true) v).
    { destruct (lo =? 0) eqn:E; [|contradiction]. intros [<-|[]].
      apply Nat.eqb_eq in E. exists []. repeat split; cbn; try lia. constructor. }
    destruct s as [|c s]; [exact (Hzero H)|]. cbn [rep_greedy] in H.
    apply in_app_or in H as [H|H]; [|exact (Hzero H)].
    destruct (p c) eqn:Ec; [|contradiction].
    destruct (IH _ _ _ H) as (v & -> & Hlen & Hall).
    exists (c :: v). repeat split; cbn [length]; try lia. now constructor.
Qed.

Lemma star_greedy_sound p : forall s x,
  In x (star_greedy p s) -> exists v, s = v ++ x /\ Forall (fun c => p c = true) v.
Proof.
  induction s as [|c s IH]; intros x H; cbn [star_greedy] in H.
  - destruct H as [<-|[]]. exists []. split; [reflexivity|constructor].
  - apply in_app_or in H as [H|[<-|[]]]; [|exists []; split; [reflexivity|constructor]].
    destruct (p c) eqn:Ec; [|contradiction]. destruct (IH _ H) as (v & -> & Hall).
    exists (c :: v). split; [reflexivity|now constructor].
Qed.

Lemma star_lazy_sound p : forall s x,
  In x (star_lazy p s) -> exists v, s = v ++ x /\ Forall (fun c => p c = true) v.
Proof.
  induction s as [|c s IH]; intros x H; cbn [star_lazy] in H.
  - destruct H as [<-|[]]. exists []. split; [reflexivity|constructor].
  - destruct H as [<-|H]; [exists []; split; [reflexivity|constructor]|].
    destruct (p c) eqn:Ec; [|contradiction]. destruct (IH _ H) as (v & -> & Hall).
    exists (c :: v). split; [reflexivity|now constructor].
Qed.

(** Every success the matcher lists is a match of the pattern with the text
    it has consumed, and its groups are those of that match. *)
Lemma rm_sound r : forall s g rest,
  In (g, rest) (rm r s) -> exists v, s = v ++ rest /\ parses r v g.
Proof.
  induction r; intros s g rest H; cbn [rm] in H; cbn [parses].
  - destruct H as [[= <- <-]|[]]. now exists [].
  - destruct s as [|c s]; [contradiction|]. destruct (p c) eqn:Ec; [|contradiction].
    destruct H as [[= <- <-]|[]]. exists [c]. split; [reflexivity|]. split; [reflexivity|].
    now exists c.
  - apply in_flat_map in H as ([g1 s1] & H1 & H2).
    apply in_map_iff in H2 as ([g2 s2] & [= <- <-] & H2). cbn [fst snd] in *.
    destruct (IHr1 _ _ _ H1) as (v1 & -> & P1). destruct (IHr2 _ _ _ H2) as (v2 & -> & P2).
    exists (v1 ++ v2). split; [now rewrite app_assoc|]. now exists v1, v2, g1, g2.
  - apply in_app_or in H as [H|H];
      [destruct (IHr1 _ _ _ H) as (v & -> & P)|destruct (IHr2 _ _ _ H) as (v & -> & P)];
      exists v; auto.
  - apply in_app_or in H as [H|[[= <- <-]|[]]].
    + destruct (IHr _ _ _ H) as (v & -> & P). exists v. auto.
    + exists []. auto.
  - apply in_map_iff in H as (x & [= <- <-] & H).
    destruct (rep_greedy_sound p _ _ _ _ H) as (v & -> & Hlen & Hall). exists v. auto.
  - apply in_map_iff in H as (x & [= <- <-] & H). destruct s as [|c s]; [contradiction|].
    cbn [plus_of] in H. destruct (p c) eqn:Ec; [|contradiction].
    destruct (star_greedy_sound p _ _ H) as (v & -> & Hall). exists (c :: v).
    split; [reflexivity|]. split; [reflexivity|]. split; [cbn; lia|now constructor].
  - apply in_map_iff in H as (x & [= <- <-] & H). destruct s as [|c s]; [contradiction|].
    cbn [plus_of] in H. destruct (p c) eqn:Ec; [|contradiction].
    destruct (star_lazy_sound p _ _ H) as (v & -> & Hall). exists (c :: v).
    split; [reflexivity|]. split; [reflexivity|]. split; [cbn; lia|now constructor].
  - apply in_map_iff in H as ([g1 s1] & [= <- <-] & H). cbn [fst snd].
    destruct (IHr _ _ _ H) as (v & -> & P). exists v. split; [reflexivity|].
    exists g1. split; [|exact P].
    rewrite length_app, Nat.add_sub, firstn_app, Nat.sub_diag, firstn_all. cbn [firstn].
    now rewrite app_nil_r.
Qed.

End Soundness.

(* ================================================================== *)
(** * The fields of a parsed date *)

Lemma between_code lo hi c : between lo hi c = true -> lo <= code c <= hi.
Proof. unfold between. rewrite andb_true_iff, !Nat.leb_le. tauto. Qed.

Lemma chr_code a c : chr a c = true -> code c = code a.
Proof. unfold chr. intros H. apply Ascii.eqb_eq in H. now subst. Qed.

Ltac class_bounds :=
  repeat match goal with
         | H : between _ _ _ = true |- _ => apply between_code in H; cbn in H
         | H : chr _ _ = true |- _ => apply chr_code in H; cbn in H
         | H : is_digit _ = true |- _ => apply between_code in H
         end.

Ltac number_field H :=
  cbn [directive_re alts fold_left parses seq fold_right dig d_] in H;
  let g1 := fresh "g" in
  destruct H as (g1 & -> & H);
  decompose [ex and or] H; subst; (split; [reflexivity|]); cbn [field_ok];
  class_bounds; cbn [app int_of fold_left]; lia.

Lemma ampm_parses v g :
  parses (alts [lit_re_i "am"; lit_re_i "pm"]) v g ->
  g = [] /\ (lower v = lit "am" \/ lower v = lit "pm").
Proof.
  intros H. cbn [alts fold_left lit_re_i lit list_ascii_of_string map seq fold_right parses] in H.
  decompose [ex and or] H; subst; (split; [reflexivity|]);
    repeat match goal with
           | H : chr_i _ _ = true |- _ => unfold chr_i in H; apply Ascii.eqb_eq in H; cbn in H
           end;
    cbn [app lower map];
    repeat match goal with H : _ = lower_char _ |- _ => rewrite <- H end; auto.
Qed.

(** A group of a format holds a value its directive allows. *)
Lemma directive_parses d v g :
  parses (directive_re d) v g ->
  if is_field d then g = [v] /\ field_ok d v else g = [].
Proof.
  intros H. destruct d; cbn [is_field]; try (number_field H).
  - cbn [directive_re parses] in H. destruct H as (g1 & -> & H).
    apply ampm_parses in H as [-> H]. split; [reflexivity|exact H].
  - cbn [directive_re parses] in H. tauto.
  - cbn [directive_re parses] in H. tauto.
Qed.

Lemma format_parses fmt : forall v g,
  parses (format_re fmt) v g -> Forall2 field_ok (filter is_field fmt) g.
Proof.
  unfold format_re. induction fmt as [|d fmt IH]; intros v g H.
  - cbn in H. destruct H as [_ ->]. constructor.
  - cbn [map seq fold_right parses] in H. fold (seq (map directive_re fmt)) in H.
    destruct H as (v1 & v2 & g1 & g2 & -> & -> & H1 & H2).
    apply directive_parses in H1. apply IH in H2. cbn [filter].
    destruct (is_field d); [|now subst g1].
    destruct H1 as [-> H1]. now constructor.
Qed.

Lemma fields_in_range ampm ds gs :
  Forall2 field_ok ds gs ->
  forall f, f_hour f <= 23 -> f_minute f <= 59 ->
            let f' := fold_left (fun f dv => set_field ampm (fst dv) (snd dv) f) (combine ds gs) f in
            f_hour f' <= 23 /\ f_minute f' <= 59
            /\ (~ In Pd ds -> f_day f' = f_day f) /\ (~ In Pm ds -> f_month f' = f_month f).
Proof.
  induction 1 as [|d v ds gs Hok _ IH]; intros f Hh Hm; cbn [combine fold_left]; [auto|].
  cbn [fst snd].
  assert (Hstep : f_hour (set_field ampm d v f) <= 23 /\ f_minute (set_field ampm d v f) <= 59
                  /\ (d <> Pd -> f_day (set_field ampm d v f) = f_day f)
                  /\ (d <> Pm -> f_month (set_field ampm d v f) = f_month f)).
  { destruct d; cbn [set_field field_ok f_hour f_minute f_day f_month] in *;
      repeat split; try lia; try congruence; try contradiction.
    destruct (str_eqb ampm (lit "pm")), (Nat.eqb_spec (int_of v) 12); lia. }
  destruct Hstep as (H1 & H2 & H3 & H4).
  destruct (IH (set_field ampm d v f) H1 H2) as (I1 & I2 & I3 & I4).
  split; [exact I1|]. split; [exact I2|]. split.
  - intros Hn. rewrite I3, H3; auto; intros E; apply Hn; [now left|now right].
  - intros Hn. rewrite I4, H4; auto; intros E; apply Hn; [now left|now right].
Qed.

(** A timestamp that [pd.to_datetime] returns is a date of the calendar with
    an hour below 24 and a minute below 60. *)
Lemma to_datetime_range fmt s t :
  to_datetime fmt s = Some t ->
  ts_hour t <= 23 /\ ts_minute t <= 59
  /\ valid_date (ts_year t) (ts_month t) (ts_day t) = true /\ in_bounds t = true.
Proof.
  unfold to_datetime, match_at. destruct (rm (format_re fmt) s) as [|[gs rest] l] eqn:E;
    cbn [hd_error]; [discriminate|].
  destruct rest; [|discriminate].
  assert (Hin : In (gs, []) (rm (format_re fmt) s)) by (rewrite E; now left).
  apply rm_sound in Hin as (v & _ & Hp). apply format_parses in Hp.
  set (f0 := {| f_year := 1900; f_month := 1; f_day := 1; f_hour := 0; f_minute := 0 |}).
  destruct (fields_in_range (ampm_of (filter is_field fmt) gs) _ _ Hp f0) as (H1 & H2 & _);
    [cbn; lia|cbn; lia|].
  set (f := fold_left _ _ f0) in *.
  destruct (valid_date (f_year f) (f_month f) (f_day f) && in_bounds _) eqn:Ev; [|discriminate].
  intros [= <-]. cbn [ts_hour ts_minute ts_year ts_month ts_day].
  apply andb_true_iff in Ev as [Ev1 Ev2]. auto.
Qed.

Lemma parse_date_range d t :
  parse_date d = Some t ->
  ts_hour t <= 23 /\ ts_minute t <= 59
  /\ valid_date (ts_year t) (ts_month t) (ts_day t) = true /\ in_bounds t = true.
Proof.
  unfold parse_date, formats, first_parse.
  destruct (to_datetime fmt_y_12 d) eqn:E1; [intros [= <-]; eapply to_datetime_range; eauto|].
  destruct (to_datetime fmt_y_24 d) eqn:E2; [intros [= <-]; eapply to_datetime_range; eauto|].
  destruct (to_datetime fmt_Y_12 d) eqn:E3; [intros [= <-]; eapply to_datetime_range; eauto|].
  destruct (to_datetime fmt_Y_24 d) eqn:E4; [intros [= <-]; eapply to_datetime_range; eauto|].
  discriminate.
Qed.

(* ================================================================== *)
(** * The records [preprocess] returns *)

Lemma preprocess_row data df r :
  snd (preprocess data) = Ok df -> In r (rows df) ->
  exists t chunk d, r = make_row t (split_user chunk) /\ parse_date d = Some t.
Proof.
  intros Hdf Hr.
  assert (Hne : re_findall pattern data <> []).
  { intros H.
    assert (Hraise : preprocess data = ([], Raise AttributeError))
      by (unfold preprocess; rewrite H, combine_nil; reflexivity).
    rewrite Hraise in Hdf. discriminate Hdf. }
  destruct (preprocess_ok data Hne) as (df' & Hdf' & Hrows).
  rewrite Hdf in Hdf'. apply Ok_inj in Hdf'. subst df'.
  rewrite Hrows in Hr. unfold parsed_rows in Hr.
  apply in_flat_map in Hr as ([chunk d] & _ & Hr). cbn [fst snd] in Hr.
  destruct (parse_date d) as [t|] eqn:E; [|contradiction].
  destruct Hr as [<-|[]]. now exists t, chunk, d.
Qed.

Lemma split_user_author chunk : fst (split_user chunk) <> [].
Proof.
  rewrite split_user_cases. destruct (name_boundary chunk) as [[name rest]|] eqn:E.
  - apply name_boundary_some in E as [[Hne _] _]. exact Hne.
  - discriminate.
Qed.

Lemma valid_date_month y m d : valid_date y m d = true -> 1 <= m <= 12.
Proof.
  unfold valid_date. rewrite !andb_true_iff, !Nat.leb_le. tauto.
Qed.

(** Every record has an hour below 24 and a minute below 60, a date of the
    calendar, the weekday and month names of the canonical lists, one of the
    twenty-four hour labels, and a non-empty author. *)
Theorem record_invariants data df r :
  snd (preprocess data) = Ok df -> In r (rows df) ->
  hour r <= 23 /\ minute r <= 59
  /\ valid_date (year r) (month_num r) (day r) = true
  /\ only_date r = (year r, month_num r, day r)
  /\ In (day_name r) day_order
  /\ month r = nth (month_num r - 1) month_order [] /\ In (month r) month_order
  /\ period r = period_of (hour r) /\ In (period r) period_labels
  /\ user r <> [].
Proof.
  intros Hdf Hr. destruct (preprocess_row data df r Hdf Hr) as (t & chunk & d & -> & Hp).
  destruct (parse_date_range d t Hp) as (Hh & Hm & Hv & _).
  cbn [make_row hour minute year month_num day only_date day_name month period user].
  pose proof (valid_date_month _ _ _ Hv) as Hmonth.
  repeat match goal with |- _ /\ _ => split end; auto.
  - unfold dt_day_name. apply nth_In.
    change (length day_order) with 7. unfold weekday. apply Nat.mod_upper_bound. discriminate.
  - unfold dt_month_name. apply nth_In. change (length month_order) with 12. lia.
  - unfold period_labels. apply in_map, in_seq. lia.
  - apply split_user_author.
Qed.

Lemma record_invariants_witness :
  let df := frame_of example_export in
  let r := nth 0 (rows df) (make_row (Build_Timestamp 0 0 0 0 0) ([], [])) in
  snd (preprocess example_export) = Ok df /\ In r (rows df) /\ hour r <= 23.
Proof.
  intros df r.
  assert (Hdf : snd (preprocess example_export) = Ok df) by (vm_compute; reflexivity).
  assert (Hin : In r (rows df)) by (vm_compute; left; reflexivity).
  split; [exact Hdf|]. split; [exact Hin|].
  exact (proj1 (record_invariants example_export df r Hdf Hin)).
Defined.

(** Different hours of the day have different labels. *)
Theorem period_of_injective h1 h2 :
  h1 <= 23 -> h2 <= 23 -> period_of h1 = period_of h2 -> h1 = h2.
Proof.
  intros H1 H2 E.
  assert (Hall : forallb (fun a => forallb (fun b => (a =? b)
                                                     || negb (str_eqb (period_of a) (period_of b)))
                                           (List.seq 0 24)) (List.seq 0 24) = true)
    by (vm_compute; reflexivity).
  assert (Hin1 : In h1 (List.seq 0 24)) by (apply in_seq; lia).
  assert (Hin2 : In h2 (List.seq 0 24)) by (apply in_seq; lia).
  rewrite forallb_forall in Hall. pose proof (Hall h1 Hin1) as Hrow.
  rewrite forallb_forall in Hrow. pose proof (Hrow h2 Hin2) as Hcell.
  rewrite E, str_eqb_refl, orb_false_r in Hcell. now apply Nat.eqb_eq.
Qed.

Lemma period_of_injective_witness :
  0 <= 23 /\ 23 <= 23 /\ (period_of 0 = period_of 23 -> 0 = 23).
Proof.
  assert (H1 : 0 <= 23) by lia. assert (H2 : 23 <= 23) by lia.
  split; [exact H1|]. split; [exact H2|]. exact (period_of_injective 0 23 H1 H2).
Defined.

(* ================================================================== *)
(** * The text of the word cloud *)

Lemma split_ws_aux_space cur a sp b :
  is_space sp = true ->
  split_ws_aux cur (a ++ sp :: b) = split_ws_aux cur a ++ split_ws b.
Proof.
  intros Hsp. revert cur. induction a as [|c a IH]; intros cur; cbn [app split_ws_aux].
  - rewrite Hsp. unfold split_ws. now destruct cur.
  - destruct (is_space c); [|apply IH].
    destruct cur; [apply IH|]. cbn [app]. now rewrite IH.
Qed.

Lemma split_ws_join parts w :
  In w (split_ws (join (lit " ") parts)) -> exists p, In p parts /\ In w (split_ws p).
Proof.
  induction parts as [|p parts IH]; [contradiction|].
  destruct parts as [|p' parts].
  - cbn [join]. intros H. exists p. split; [now left|exact H].
  - change (join (lit " ") (p :: p' :: parts))
      with (p ++ " "%char :: join (lit " ") (p' :: parts)).
    unfold split_ws at 1. rewrite split_ws_aux_space by reflexivity.
    intros H. apply in_app_or in H as [H|H].
    + exists p. split; [now left|exact H].
    + destruct (IH H) as (q & Hq & Hw). exists q. split; [now right|exact Hw].
Qed.

Lemma split_ws_aux_token t : forall cur,
  Forall (fun c => is_space c = false) t -> split_ws_aux cur t = split_ws_aux (rev t ++ cur) [].
Proof.
  induction t as [|c t IH]; intros cur Hf; [reflexivity|].
  inversion Hf as [|? ? Hc Ht]; subst. cbn [split_ws_aux]. rewrite Hc, IH by exact Ht.
  cbn [rev]. now rewrite <- app_assoc.
Qed.

Lemma split_ws_token t w :
  Forall (fun c => is_space c = false) t -> In w (split_ws t) -> w = t.
Proof.
  intros Hf. unfold split_ws. rewrite split_ws_aux_token by exact Hf. rewrite app_nil_r.
  cbn [split_ws_aux]. destruct (rev t) eqn:E; [contradiction|].
  intros [<-|[]]. now rewrite <- E, rev_involutive.
Qed.

(** With a readable stop-word list, the text [create_wordcloud] has drawn is
    the placeholder, or a text none of whose words is a stop word of the list
    and whose words have word characters only; when that drawing fails the
    text 'Error' is drawn instead. *)
Theorem create_wordcloud_text generate content selected_user df :
  exists text,
    (text = lit "No meaningful words found"
     \/ forall w, In w (split_ws text) ->
                  ~ In w (split_lines content) /\ Forall (fun c => is_word c = true) w)
    /\ create_wordcloud generate (Some content) selected_user df
       = match (_ <- text_rows selected_user df ;; generate text) with
         | Ok wc => Ok wc
         | Raise _ => generate (lit "Error")
         end.
Proof.
  unfold create_wordcloud. destruct (text_rows selected_user df) as [msgs|e]; cbn [bind].
  - set (all_words := join (lit " ") (map (remove_stop_words (Some content)) msgs)).
    exists (if forallb is_space all_words then lit "No meaningful words found" else all_words).
    split; [|reflexivity]. destruct (forallb is_space all_words); [now left|right].
    intros w Hw. apply split_ws_join in Hw as (p & Hp & Hw).
    apply in_map_iff in Hp as (msg & <- & _). cbn [remove_stop_words] in Hw.
    apply split_ws_join in Hw as (t & Ht & Hw). apply filter_In in Ht as [Htok Hstop].
    apply split_ws_tokens in Htok as [_ Htok].
    assert (Hw' : w = t).
    { apply split_ws_token; [|exact Hw]. eapply Forall_impl; [|exact Htok]. cbn. tauto. }
    subst t. split.
    + intros Hin. apply negb_true_iff in Hstop. unfold mem in Hstop.
      assert (existsb (str_eqb w) (split_lines content) = true); [|congruence].
      apply existsb_exists. exists w. split; [exact Hin|apply str_eqb_refl].
    + eapply Forall_impl; [|exact Htok]. cbn. intros c [Hsp Hc].
      unfold punct_pattern in Hc. rewrite re_sub_class in Hc.
      apply filter_In in Hc as [_ Hc]. rewrite negb_involutive, Hsp, orb_false_r in Hc.
      exact Hc.
  - exists (lit "No meaningful words found"). split; [now left|reflexivity].
Qed.

(* ================================================================== *)
(** * [fetch_stats] on a parsed chat *)

Lemma preprocess_dtype data df :
  snd (preprocess data) = Ok df -> rows df <> [] -> text_dtype df = Object.
Proof.
  unfold preprocess. cbn [snd].
  set (df0 := combine (tl (re_split pattern data)) (re_findall pattern data)).
  set (kept := dropna _).
  destruct (dt_accessor _ (map snd kept)) as [stamps|e] eqn:E; cbn [bind]; [|discriminate].
  intros [= <-]. cbn [rows text_dtype]. intros Hne.
  assert (Hs : stamps = map snd kept).
  { unfold dt_accessor in E. destruct (dtype_of_list _ _); congruence. }
  subst stamps. destruct kept as [|k kept]; [now cbn in Hne|reflexivity].
Qed.

(** On the frame of a chat with at least one record [fetch_stats] does not
    raise, whatever the filter: the first number is the number of selected
    records, and the media messages are among them. *)
Theorem fetch_stats_on_parsed_chat data df selected_user :
  snd (preprocess data) = Ok df -> rows df <> [] ->
  exists w m l,
    fetch_stats selected_user df
    = Ok (length (rows (select_user selected_user df)), w, m, l)
    /\ m <= length (rows (select_user selected_user df)).
Proof.
  intros Hdf Hne. pose proof (preprocess_dtype data df Hdf Hne) as Hd.
  unfold fetch_stats, media_rows, str_accessor.
  rewrite select_user_dtype, Hd. cbn [bind rows].
  do 3 eexists. split; [reflexivity|]. apply filter_length_le.
Qed.

Lemma fetch_stats_on_parsed_chat_witness :
  snd (preprocess example_export) = Ok (frame_of example_export)
  /\ rows (frame_of example_export) <> []
  /\ exists w m l,
      fetch_stats (lit "Bob") (frame_of example_export)
      = Ok (length (rows (select_user (lit "Bob") (frame_of example_export))), w, m, l)
      /\ m <= length (rows (select_user (lit "Bob") (frame_of example_export))).
Proof.
  assert (H1 : snd (preprocess example_export) = Ok (frame_of example_export))
    by (vm_compute; reflexivity).
  assert (H2 : rows (frame_of example_export) <> []) by (vm_compute; discriminate).
  split; [exact H1|]. split; [exact H2|].
  exact (fetch_stats_on_parsed_chat example_export (frame_of example_export) (lit "Bob") H1 H2).
Defined.
